(** * physics.c: 2D vectors, solids and the RK4-style integrator

    A shallow embedding of [src/physics.c].  The C type [double] is read as
    the real numbers: every arithmetic operation is exact, so rounding,
    infinities and NaN are outside the model.  Three places of the code
    depend on what exact arithmetic leaves out, and the theorems that touch
    them say so in their hypotheses:
    - the conversion [(int)d] of line 128 is defined only while the
      truncated value fits an [int]; [double_to_int] truncates into [Z], and
      the theorems on the substep count assume [dt / 0.01 <= INT_MAX];
    - the quotient [dt / RK4_MIN_H] is rounded before it is truncated, so
      the count the code reaches can be one above the floor of the exact
      quotient; the theorems on the count bound it with the slack
      [DBL_EPSILON] instead of naming the floor;
    - the divisions by [mass] of lines 143-144 give infinities or NaN for a
      mass of 0; the theorems that read the acceleration assume a mass
      other than 0.
    The two blends of lines 149-153 and 159-163 are also transcribed over
    binary64 (module [B64]), where they can be run.  The C type [int] is
    read as [Z].  Functions that mutate a struct through a pointer take the
    old struct and return the new one. *)

From Stdlib Require Floats.
From Stdlib Require Import Reals ZArith List Lra Lia Psatz.

Open Scope R_scope.

(** ** Data model *)

(** [Vector2d] of physics.h: cartesian and polar form side by side.  The C
    field [mod] is spelled [mod_] here, [mod] being a reserved token. *)
Record Vector2d : Type := mkVector2d {
  x : R;
  y : R;
  mod_ : R;
  angle : R
}.

(** The [update] member is a function pointer; the only function of this
    file ever stored in it is [rk4_update]. *)
Inductive UpdateFn : Type :=
  | fn_unset
  | fn_rk4_update.

(** [Solid] of physics.h: the members are those [physics.c] reads or writes. *)
Record Solid : Type := mkSolid {
  mass : R;
  dir : R;
  dir_vel : R;
  vel : Vector2d;
  pos : Vector2d;
  force : Vector2d;
  update : UpdateFn
}.

(** Member assignments [v->f = e] and [obj->f = e]. *)
Definition set_x (v : Vector2d) (a : R) : Vector2d :=
  mkVector2d a (y v) (mod_ v) (angle v).
Definition set_y (v : Vector2d) (a : R) : Vector2d :=
  mkVector2d (x v) a (mod_ v) (angle v).
Definition set_mod (v : Vector2d) (a : R) : Vector2d :=
  mkVector2d (x v) (y v) a (angle v).
Definition set_angle (v : Vector2d) (a : R) : Vector2d :=
  mkVector2d (x v) (y v) (mod_ v) a.

Definition set_mass (s : Solid) (m : R) : Solid :=
  mkSolid m (dir s) (dir_vel s) (vel s) (pos s) (force s) (update s).
Definition set_dir (s : Solid) (d : R) : Solid :=
  mkSolid (mass s) d (dir_vel s) (vel s) (pos s) (force s) (update s).
Definition set_vel (s : Solid) (v : Vector2d) : Solid :=
  mkSolid (mass s) (dir s) (dir_vel s) v (pos s) (force s) (update s).
Definition set_pos (s : Solid) (v : Vector2d) : Solid :=
  mkSolid (mass s) (dir s) (dir_vel s) (vel s) v (force s) (update s).
Definition set_force (s : Solid) (v : Vector2d) : Solid :=
  mkSolid (mass s) (dir s) (dir_vel s) (vel s) (pos s) v (update s).
Definition set_update (s : Solid) (u : UpdateFn) : Solid :=
  mkSolid (mass s) (dir s) (dir_vel s) (vel s) (pos s) (force s) u.

(** ** Constants and macros *)

(** [M_PI] of math.h (with the fallback of line 11): the constant pi. *)
Definition M_PI : R := PI.

(** [#define RK4_MIN_H 0.01] *)
Definition RK4_MIN_H : R := 1 / 100.

(** The two-argument arctangent of math.h, in (-pi, pi]. *)
Definition atan2 (b a : R) : R :=
  if Rlt_dec 0 a then atan (b / a)
  else if Rlt_dec a 0 then
         (if Rle_dec 0 b then atan (b / a) + PI else atan (b / a) - PI)
  else if Rlt_dec 0 b then PI / 2
  else if Rlt_dec b 0 then - (PI / 2)
  else 0.

(** Modelled from the spec: the macro [MOD] of physics.h, which is not in
    src/; the spec gives magnitude = sqrt(x^2 + y^2). *)
Definition MOD (a b : R) : R := sqrt (a * a + b * b).

(** Modelled from the spec: the macro [ANGLE] of physics.h, which is not in
    src/; the spec gives angle = atan2(y, x). *)
Definition ANGLE (a b : R) : R := atan2 b a.

(** Modelled from the spec: the accessor macros [VX] and [VY] of physics.h,
    which are not in src/; they read the cartesian members. *)
Definition VX (v : Vector2d) : R := x v.
Definition VY (v : Vector2d) : R := y v.

(** [INT_MAX] of limits.h, for a 32-bit [int]. *)
Definition INT_MAX : Z := 2147483647.

(** [DBL_EPSILON] of float.h, 2^-52: twice the largest relative error of one
    rounded operation on doubles. *)
Definition DBL_EPSILON : R := 1 / 4503599627370496.

(** The cast [(int)d]: truncation toward zero.  It is the C conversion
    while the result lies between [- INT_MAX - 1] and [INT_MAX]; outside
    that range C leaves the conversion undefined. *)
Definition double_to_int (d : R) : Z :=
  if Rle_dec 0 d then Int_part d else (- Int_part (- d))%Z.

(** A [double] used as a condition is true when it is not zero. *)
Definition nonzero (d : R) : bool :=
  if Req_dec_T d 0 then false else true.

(** ** Vector operations (lines 18-51) *)

Definition vect_cset (v : Vector2d) (a b : R) : Vector2d :=
  let v := set_x v a in
  let v := set_y v b in
  let v := set_mod v (MOD a b) in
  set_angle v (ANGLE a b).

Definition vect_pset (v : Vector2d) (m ang : R) : Vector2d :=
  let v := set_mod v m in
  let v := set_angle v ang in
  let v := set_x v (mod_ v * cos (angle v)) in
  set_y v (mod_ v * sin (angle v)).

Definition vectcpy (dest src : Vector2d) : Vector2d :=
  let dest := set_x dest (x src) in
  let dest := set_y dest (y src) in
  let dest := set_mod dest (mod_ src) in
  set_angle dest (angle src).

Definition vectnull (v : Vector2d) : Vector2d :=
  let v := set_angle v 0 in
  let v := set_mod v (angle v) in
  let v := set_y v (mod_ v) in
  set_x v (y v).

(** ** The integrator (lines 120-175) *)

(** The local variables of [rk4_update] that the loop reads and writes. *)
Record Locals : Type := mkLocals {
  i : Z;
  px : R;
  py : R;
  vx : R;
  vy : R
}.

(** Lines 149-153: the increment [tx] added to [px], from the velocity
    component [v] held in [vx] when the substep starts. *)
Definition blend_x (v h : R) : R :=
  let ix := v in
  let tx := ix in
  let tx := tx + (2 * ix + h * tx) in
  let tx := tx + (2 * ix + h * tx) in
  let tx := tx + (ix + h * tx) in
  tx * (h / 6).

(** Lines 159-163: the increment [ty] added to [py]. *)
Definition blend_y (v h : R) : R :=
  let iy := v in
  let ty := iy in
  let ty := ty + 2 * (iy + h / 2 * ty) in
  let ty := ty + 2 * (iy + h / 2 * ty) in
  let ty := ty + (iy + h * ty) in
  ty * (h / 6).

(** Lines 148-166 followed by the [i++] of the loop header. *)
Definition rk4_body (h ax ay : R) (s : Locals) : Locals :=
  let tx := blend_x (vx s) h in
  let px' := px s + tx in
  let vx' := vx s + ax * h in
  let ty := blend_y (vy s) h in
  let py' := py s + ty in
  let vy' := vy s + ay * h in
  mkLocals (i s + 1) px' py' vx' vy'.

(** [for (i=0; i < N; i++)] unrolled [n] times: [n] is the number of
    iterations still to run. *)
Fixpoint rk4_loop (n : nat) (h ax ay : R) (s : Locals) : Locals :=
  match n with
  | O => s
  | S n' => rk4_loop n' h ax ay (rk4_body h ax ay s)
  end.

(** The same loop driven by its guard [i < N], with fuel; [None] when the
    fuel runs out before the guard fails. *)
Fixpoint rk4_for (fuel : nat) (N : Z) (h ax ay : R) (s : Locals)
  : option Locals :=
  if (i s <? N)%Z then
    match fuel with
    | O => None
    | S f => rk4_for f N h ax ay (rk4_body h ax ay s)
    end
  else Some s.

(** Line 128: [int N = (dt>RK4_MIN_H) ? (int)(dt/RK4_MIN_H) : 1], with the
    quotient exact and the cast as [double_to_int]: the [N] of the code
    while [dt / RK4_MIN_H <= INT_MAX], up to the rounding of the quotient
    (a quotient that rounds up to an integer gives the code that integer). *)
Definition rk4_N (dt : R) : Z :=
  if Rlt_dec RK4_MIN_H dt then double_to_int (dt / RK4_MIN_H) else 1%Z.

(** Line 129: [double h = dt / (double)N]. *)
Definition rk4_h (dt : R) : R := dt / IZR (rk4_N dt).

(** Lines 124-126. *)
Definition rk4_heading (obj : Solid) (dt : R) : Solid :=
  let obj := set_dir obj (dir obj + dir_vel obj / 360 * dt) in
  let obj :=
    if Rlt_dec (2 * M_PI) (dir obj) then set_dir obj (dir obj - 2 * M_PI)
    else obj in
  if Rlt_dec (dir obj) 0 then set_dir obj (dir obj + 2 * M_PI) else obj.

(** Lines 131-135: the locals before the branch on the force ([i] is set by
    the loop header). *)
Definition rk4_entry (obj : Solid) : Locals :=
  mkLocals 0 (VX (pos obj)) (VY (pos obj)) (VX (vel obj)) (VY (vel obj)).

(** The locals at line 174: after the loop in the force branch, after
    lines 171-172 otherwise.  The divisions by the mass are the real ones:
    they are those of lines 143-144 for a mass other than 0. *)
Definition rk4_locals (obj : Solid) (dt : R) : Locals :=
  let N := rk4_N dt in
  let h := rk4_h dt in
  let s := rk4_entry obj in
  if nonzero (mod_ (force obj)) then
    let ax := VX (force obj) / mass obj in
    let ay := VY (force obj) / mass obj in
    rk4_loop (Z.to_nat N) h ax ay s
  else
    mkLocals (i s) (px s + dt * vx s) (py s + dt * vy s) (vx s) (vy s).

(** [static void rk4_update (Solid *obj, const double dt)]. *)
Definition rk4_update (obj : Solid) (dt : R) : Solid :=
  let obj := rk4_heading obj dt in
  let s := rk4_locals obj dt in
  let obj :=
    if nonzero (mod_ (force obj)) then
      set_vel obj (vect_cset (vel obj) (vx s) (vy s))
    else obj in
  set_pos obj (vect_cset (pos obj) (px s) (py s)).

(** Calling the function stored in [obj->update]. *)
Definition call_update (obj : Solid) (dt : R) : option Solid :=
  match update obj with
  | fn_rk4_update => Some (rk4_update obj dt)
  | fn_unset => None
  end.

(** ** Solid lifecycle (lines 181-206) *)

(** [solid_init]: [dest] is the storage as found; a NULL [vel] or [pos] is
    [None]. *)
Definition solid_init (dest : Solid) (m : R) (v p : option Vector2d)
  : Solid :=
  let dest := set_mass dest m in
  let dest := set_force dest (set_mod (force dest) 0) in
  let dest := set_dir dest 0 in
  let dest :=
    match v with
    | None => set_vel dest (vectnull (vel dest))
    | Some src => set_vel dest (vectcpy (vel dest) src)
    end in
  let dest :=
    match p with
    | None => set_pos dest (vectnull (pos dest))
    | Some src => set_pos dest (vectcpy (pos dest) src)
    end in
  set_update dest fn_rk4_update.

(** [solid_create]: [block] is what [MALLOC_ONE] returned, [None] for NULL,
    on which the assertion stops the program. *)
Definition solid_create (block : option Solid) (m : R)
  (v p : option Vector2d) : option Solid :=
  match block with
  | None => None
  | Some dyn => Some (solid_init dyn m v p)
  end.

(** ** What the spec compares the code with *)

(** The consistency invariant of a [Vector2d]: the polar members are the
    ones derived from the cartesian members. *)
Definition consistent (v : Vector2d) : Prop :=
  mod_ v = sqrt (x v * x v + y v * y v) /\ angle v = atan2 (y v) (x v).

(** The closed-form kinematic solution [p0 + v0*dt + 1/2*(F/m)*dt^2], per
    axis. *)
Definition closed_form (p0 v0 f m dt : R) : R :=
  p0 + v0 * dt + 1 / 2 * (f / m) * (dt * dt).

(** The substep count the spec words: [max(1, ceil(dt / H_MIN))]. *)
Definition Rceil (d : R) : Z := (- Int_part (- d))%Z.
Definition spec_N (dt : R) : Z := Z.max 1 (Rceil (dt / RK4_MIN_H)).

(** The polynomial factor of one substep's position increment. *)
Definition blend_factor (h : R) : R :=
  (6 + 9 * h + 5 * (h * h) + h * h * h) / 6.

(** ** The blends over binary64 *)

(** Lines 149-153 and 159-163 once more, over IEEE 754 binary64 with
    round-to-nearest-even, each C operation rounded on its own. *)
Module B64.

Import Floats.

Definition blend_x (v h : float) : float :=
  let ix := v in
  let tx := ix in
  let tx := (tx + (2 * ix + h * tx))%float in
  let tx := (tx + (2 * ix + h * tx))%float in
  let tx := (tx + (ix + h * tx))%float in
  (tx * (h / 6))%float.

Definition blend_y (v h : float) : float :=
  let iy := v in
  let ty := iy in
  let ty := (ty + 2 * (iy + h / 2 * ty))%float in
  let ty := (ty + 2 * (iy + h / 2 * ty))%float in
  let ty := (ty + (iy + h * ty))%float in
  (ty * (h / 6))%float.

(** The double [m * 2^e]. *)
Definition scaled (m e : Z) : float := Z.ldexp (PrimFloat.of_uint63 (Uint63.of_Z m)) e.

(** A velocity component in the subnormal range, 190 * 2^-1074, and the
    step 2^-7 = 0.0078125, which is the step of an update over
    [dt = 0.0078125]. *)
Definition slow : float := scaled 190 (-1074).
Definition step : float := scaled 1 (-7).

End B64.

(** ** Solids used as concrete inputs *)

Definition vect_zero : Vector2d := mkVector2d 0 0 0 0.

(** A vector along the x axis, in consistent form. *)
Definition vect_along_x (a : R) : Vector2d := mkVector2d a 0 a 0.

(** A solid at rest at the origin, with mass [m] and force [(f, 0)]. *)
Definition solid_at_rest (m f : R) : Solid :=
  mkSolid m 0 0 vect_zero vect_zero (vect_along_x f) fn_rk4_update.

(** A solid at the origin with heading [d] and angular velocity [w]. *)
Definition solid_turning (d w : R) : Solid :=
  mkSolid 1 d w vect_zero vect_zero vect_zero fn_rk4_update.

(** A force-free solid whose velocity has cartesian form (1, 0) and a stored
    magnitude of 5. *)
Definition solid_skewed : Solid :=
  mkSolid 1 0 0 (mkVector2d 1 0 5 0) vect_zero vect_zero fn_rk4_update.

(** A force-free solid moving along the x axis at speed 3. *)
Definition solid_coasting : Solid :=
  mkSolid 1 0 0 (vect_along_x 3) vect_zero vect_zero fn_rk4_update.

(** Two states of the storage handed to [solid_init], before it is
    written. *)
Definition storage_junk : Solid :=
  mkSolid 7 7 7 (mkVector2d 7 7 7 7) (mkVector2d 7 7 7 7)
          (mkVector2d 1 0 7 7) fn_unset.
Definition storage_zero : Solid :=
  mkSolid 0 0 0 vect_zero vect_zero vect_zero fn_unset.

(** A member, read by [f], is initialized when its value after
    [solid_init] does not depend on the storage handed in, and unwritten
    when it is the value found there. *)
Definition initialized {A : Type} (f : Solid -> A) : Prop :=
  forall (d1 d2 : Solid) (m : R) (v p : option Vector2d),
    f (solid_init d1 m v p) = f (solid_init d2 m v p).
Definition unwritten {A : Type} (f : Solid -> A) : Prop :=
  forall (d : Solid) (m : R) (v p : option Vector2d),
    f (solid_init d m v p) = f d.

(** What a NULL or non-NULL source leaves in the destination vector. *)
Definition source_or_zero (src : option Vector2d) : Vector2d :=
  match src with
  | Some v => v
  | None => vect_zero
  end.

(** ** A caller's tick loop *)

(** One update per elapsed time of the list, in order, as a host loop issues
    them. *)
Definition run_updates (obj : Solid) (dts : list R) : Solid :=
  fold_left rk4_update dts obj.

(** The time a list of ticks adds up to. *)
Definition total_time (dts : list R) : R := fold_right Rplus 0 dts.

(** The solid moved by [(a, b)], its position committed through
    [vect_cset]. *)
Definition translate (obj : Solid) (a b : R) : Solid :=
  set_pos obj (vect_cset (pos obj) (x (pos obj) + a) (y (pos obj) + b)).

(** The vector mirrored in the diagonal: the cartesian members change
    places, the magnitude stays. *)
Definition vect_mirror (v : Vector2d) : Vector2d :=
  mkVector2d (y v) (x v) (mod_ v) (PI / 2 - angle v).

(** The solid with velocity, position and force mirrored in the diagonal. *)
Definition solid_mirror (obj : Solid) : Solid :=
  mkSolid (mass obj) (dir obj) (dir_vel obj) (vect_mirror (vel obj))
          (vect_mirror (pos obj)) (vect_mirror (force obj)) (update obj).

(** A solid of mass 1 moving along the y axis at speed 1 under a force
    (1, 0) along the x axis. *)
Definition solid_crossing : Solid :=
  mkSolid 1 0 0 (mkVector2d 0 1 1 (PI / 2)) vect_zero (vect_along_x 1)
          fn_rk4_update.

(** ** Tactics *)

(** Case analysis on the two tests of lines 125-126. *)
Ltac heading_cases :=
  unfold rk4_heading; cbn [dir set_dir];
  repeat match goal with
         | |- context [Rlt_dec ?a ?b] =>
             destruct (Rlt_dec a b); cbn [dir set_dir] in *
         end.

(** ** Basic facts *)

Lemma vect_cset_eq (v : Vector2d) (a b : R) :
  vect_cset v a b = mkVector2d a b (MOD a b) (ANGLE a b).
Proof. reflexivity. Qed.

Lemma vectcpy_eq (dest src : Vector2d) : vectcpy dest src = src.
Proof. destruct src; reflexivity. Qed.

Lemma vectnull_eq (v : Vector2d) : vectnull v = vect_zero.
Proof. reflexivity. Qed.

Lemma vect_cset_consistent (v : Vector2d) (a b : R) :
  consistent (vect_cset v a b).
Proof. split; reflexivity. Qed.

Lemma nonzero_true (d : R) : d <> 0 -> nonzero d = true.
Proof. intros H; unfold nonzero; destruct (Req_dec_T d 0); [contradiction | reflexivity]. Qed.

Lemma nonzero_false (d : R) : d = 0 -> nonzero d = false.
Proof. intros H; unfold nonzero; destruct (Req_dec_T d 0); [reflexivity | contradiction]. Qed.

(** [Int_part] is the floor. *)
Lemma Int_part_floor (r : R) (z : Z) :
  IZR z <= r < IZR z + 1 -> Int_part r = z.
Proof.
  intros [Hlo Hhi]. symmetry. apply Int_part_spec. lra.
Qed.

Lemma Int_part_bounds (r : R) : IZR (Int_part r) <= r < IZR (Int_part r) + 1.
Proof.
  destruct (base_Int_part r) as [H1 H2]. lra.
Qed.

(** ** The blends as polynomials *)

Lemma blend_x_poly (v h : R) : blend_x v h = v * h * blend_factor h.
Proof. unfold blend_x, blend_factor. field. Qed.

Lemma blend_y_poly (v h : R) : blend_y v h = v * h * blend_factor h.
Proof. unfold blend_y, blend_factor. field. Qed.

(** ** The substep count and the step *)

Lemma div_RK4_MIN_H (dt : R) : dt / RK4_MIN_H = 100 * dt.
Proof. unfold RK4_MIN_H. field. Qed.

Lemma rk4_N_small (dt : R) : dt <= RK4_MIN_H -> rk4_N dt = 1%Z.
Proof.
  intros H. unfold rk4_N. destruct (Rlt_dec RK4_MIN_H dt); [lra | reflexivity].
Qed.

Lemma rk4_N_large (dt : R) :
  RK4_MIN_H < dt -> rk4_N dt = Int_part (dt / RK4_MIN_H).
Proof.
  intros H. unfold rk4_N. destruct (Rlt_dec RK4_MIN_H dt); [| lra].
  unfold double_to_int. destruct (Rle_dec 0 (dt / RK4_MIN_H)) as [|Hn]; [reflexivity |].
  exfalso. apply Hn. rewrite div_RK4_MIN_H. unfold RK4_MIN_H in H. lra.
Qed.

Lemma rk4_N_bounds (dt : R) :
  RK4_MIN_H < dt ->
  IZR (rk4_N dt) <= dt / RK4_MIN_H < IZR (rk4_N dt) + 1.
Proof.
  intros H. rewrite (rk4_N_large dt H). apply Int_part_bounds.
Qed.

Lemma rk4_N_ge_1 (dt : R) : (1 <= rk4_N dt)%Z.
Proof.
  destruct (Rlt_dec RK4_MIN_H dt) as [H|H].
  - destruct (rk4_N_bounds dt H) as [_ Hhi].
    rewrite div_RK4_MIN_H in Hhi. unfold RK4_MIN_H in H.
    assert (Hz : 0 < IZR (rk4_N dt)) by lra.
    apply lt_IZR in Hz. lia.
  - rewrite rk4_N_small by lra. lia.
Qed.

Lemma rk4_N_IZR_pos (dt : R) : 1 <= IZR (rk4_N dt).
Proof. apply IZR_le. apply rk4_N_ge_1. Qed.

Lemma rk4_h_times_N (dt : R) : rk4_h dt * IZR (rk4_N dt) = dt.
Proof.
  unfold rk4_h. pose proof (rk4_N_IZR_pos dt). field. lra.
Qed.

(** A computed instance of the count: [dt] between [z] and [z+1] hundredths. *)
Lemma rk4_N_at (dt : R) (z : Z) :
  RK4_MIN_H < dt -> IZR z <= 100 * dt < IZR z + 1 -> rk4_N dt = z.
Proof.
  intros H Hz. rewrite (rk4_N_large dt H). apply Int_part_floor.
  rewrite div_RK4_MIN_H. exact Hz.
Qed.

(** ** The loop in closed form *)

Section Substeps.

Variables h ax ay : R.

(** One substep, with both blends written as polynomials. *)
Lemma rk4_body_eq (s : Locals) :
  rk4_body h ax ay s =
  mkLocals (i s + 1)
           (px s + vx s * h * blend_factor h)
           (py s + vy s * h * blend_factor h)
           (vx s + ax * h)
           (vy s + ay * h).
Proof.
  unfold rk4_body. rewrite blend_x_poly, blend_y_poly. reflexivity.
Qed.

(** After [n] substeps: the velocity has advanced by [n] times
    [acceleration*h], the position by the blend factor times the sum of the
    [n] velocities the substeps started from. *)
Lemma rk4_loop_closed (n : nat) (s : Locals) :
  rk4_loop n h ax ay s =
  mkLocals (i s + Z.of_nat n)
           (px s + blend_factor h * h *
                   (INR n * vx s + ax * h * (INR n * (INR n - 1) / 2)))
           (py s + blend_factor h * h *
                   (INR n * vy s + ay * h * (INR n * (INR n - 1) / 2)))
           (vx s + INR n * (ax * h))
           (vy s + INR n * (ay * h)).
Proof.
  revert s. induction n as [|n IH]; intros s.
  - destruct s as [i0 px0 py0 vx0 vy0]. cbn [rk4_loop i px py vx vy INR Z.of_nat].
    f_equal; try lia; lra.
  - cbn [rk4_loop]. rewrite IH, rk4_body_eq. cbn [i px py vx vy].
    rewrite S_INR, Nat2Z.inj_succ. f_equal; try lia; field.
Qed.

Lemma rk4_loop_counter (n : nat) (s : Locals) :
  i (rk4_loop n h ax ay s) = (i s + Z.of_nat n)%Z.
Proof. rewrite rk4_loop_closed. reflexivity. Qed.

(** The guard-driven loop stops, after exactly the iterations that the
    counter still allows. *)
Lemma rk4_for_terminates (fuel : nat) (N : Z) (s : Locals) :
  (Z.to_nat (N - i s) <= fuel)%nat ->
  rk4_for fuel N h ax ay s = Some (rk4_loop (Z.to_nat (N - i s)) h ax ay s).
Proof.
  revert s. induction fuel as [|f IH]; intros s Hf.
  - cbn [rk4_for]. destruct (Z.ltb_spec (i s) N) as [Hlt|Hge]; [lia |].
    replace (Z.to_nat (N - i s)) with O by lia. reflexivity.
  - cbn [rk4_for]. destruct (Z.ltb_spec (i s) N) as [Hlt|Hge].
    + rewrite IH by (cbn [rk4_body i]; lia).
      replace (Z.to_nat (N - i s)) with (S (Z.to_nat (N - i (rk4_body h ax ay s))))
        by (cbn [rk4_body i]; lia).
      reflexivity.
    + replace (Z.to_nat (N - i s)) with O by lia. reflexivity.
Qed.

End Substeps.

(** ** The update, member by member *)

Lemma rk4_heading_frame (obj : Solid) (dt : R) :
  mass (rk4_heading obj dt) = mass obj /\
  dir_vel (rk4_heading obj dt) = dir_vel obj /\
  vel (rk4_heading obj dt) = vel obj /\
  pos (rk4_heading obj dt) = pos obj /\
  force (rk4_heading obj dt) = force obj /\
  update (rk4_heading obj dt) = update obj.
Proof.
  unfold rk4_heading.
  repeat match goal with
         | |- context [Rlt_dec ?a ?b] => destruct (Rlt_dec a b)
         end; repeat split; reflexivity.
Qed.

Lemma rk4_locals_heading (obj : Solid) (dt : R) :
  rk4_locals (rk4_heading obj dt) dt = rk4_locals obj dt.
Proof.
  destruct (rk4_heading_frame obj dt) as (Hm & _ & Hv & Hp & Hf & _).
  unfold rk4_locals, rk4_entry. rewrite Hm, Hv, Hp, Hf. reflexivity.
Qed.

Lemma dir_rk4_update (obj : Solid) (dt : R) :
  dir (rk4_update obj dt) = dir (rk4_heading obj dt).
Proof.
  unfold rk4_update. cbv zeta.
  destruct (nonzero (mod_ (force (rk4_heading obj dt)))); reflexivity.
Qed.

Lemma pos_rk4_update (obj : Solid) (dt : R) :
  pos (rk4_update obj dt) =
  vect_cset (pos obj) (px (rk4_locals obj dt)) (py (rk4_locals obj dt)).
Proof.
  unfold rk4_update. cbv zeta. rewrite rk4_locals_heading.
  destruct (nonzero (mod_ (force (rk4_heading obj dt)))); reflexivity.
Qed.

Lemma vel_rk4_update (obj : Solid) (dt : R) :
  vel (rk4_update obj dt) =
  if nonzero (mod_ (force obj))
  then vect_cset (vel obj) (vx (rk4_locals obj dt)) (vy (rk4_locals obj dt))
  else vel obj.
Proof.
  destruct (rk4_heading_frame obj dt) as (_ & _ & Hv & _ & Hf & _).
  unfold rk4_update. cbv zeta. rewrite rk4_locals_heading, Hf.
  destruct (nonzero (mod_ (force obj))); cbn [vel set_pos set_vel];
    rewrite ?Hv; reflexivity.
Qed.

Lemma rk4_update_frame (obj : Solid) (dt : R) :
  mass (rk4_update obj dt) = mass obj /\
  dir_vel (rk4_update obj dt) = dir_vel obj /\
  force (rk4_update obj dt) = force obj /\
  update (rk4_update obj dt) = update obj.
Proof.
  destruct (rk4_heading_frame obj dt) as (Hm & Hw & _ & _ & Hf & Hu).
  unfold rk4_update. cbv zeta.
  destruct (nonzero (mod_ (force (rk4_heading obj dt))));
    cbn [mass dir_vel force update set_pos set_vel]; auto.
Qed.

Lemma rk4_locals_force (obj : Solid) (dt : R) :
  mod_ (force obj) <> 0 ->
  rk4_locals obj dt =
  rk4_loop (Z.to_nat (rk4_N dt)) (rk4_h dt)
           (x (force obj) / mass obj) (y (force obj) / mass obj)
           (rk4_entry obj).
Proof.
  intros H. unfold rk4_locals. rewrite (nonzero_true _ H). reflexivity.
Qed.

Lemma rk4_locals_free (obj : Solid) (dt : R) :
  mod_ (force obj) = 0 ->
  rk4_locals obj dt =
  mkLocals 0 (x (pos obj) + dt * x (vel obj)) (y (pos obj) + dt * y (vel obj))
           (x (vel obj)) (y (vel obj)).
Proof.
  intros H. unfold rk4_locals. rewrite (nonzero_false _ H). reflexivity.
Qed.

Lemma INR_to_nat_N (dt : R) : INR (Z.to_nat (rk4_N dt)) = IZR (rk4_N dt).
Proof.
  rewrite INR_IZR_INZ, Z2Nat.id; [reflexivity |].
  pose proof (rk4_N_ge_1 dt). lia.
Qed.

(** The force branch in closed form: what the substeps add up to. *)
Lemma rk4_locals_force_closed (obj : Solid) (dt : R) :
  mod_ (force obj) <> 0 ->
  let n := IZR (rk4_N dt) in
  let h := rk4_h dt in
  let ax := x (force obj) / mass obj in
  let ay := y (force obj) / mass obj in
  rk4_locals obj dt =
  mkLocals (rk4_N dt)
           (x (pos obj) + blend_factor h * h *
              (n * x (vel obj) + ax * h * (n * (n - 1) / 2)))
           (y (pos obj) + blend_factor h * h *
              (n * y (vel obj) + ay * h * (n * (n - 1) / 2)))
           (x (vel obj) + n * (ax * h))
           (y (vel obj) + n * (ay * h)).
Proof.
  intros H n h ax ay. rewrite (rk4_locals_force obj dt H), rk4_loop_closed.
  rewrite INR_to_nat_N. cbn [rk4_entry i px py vx vy VX VY].
  unfold VX, VY. f_equal.
  pose proof (rk4_N_ge_1 dt). lia.
Qed.

(** ** No force: linear motion *)

(** C2.  When the magnitude of the force is 0, the update moves the position
    to [position0 + velocity0 * dt] and leaves the velocity, all four
    members of it, as it was. *)
Theorem rk4_update_no_force (obj : Solid) (dt : R) :
  mod_ (force obj) = 0 ->
  0 <= dt ->
  x (pos (rk4_update obj dt)) = x (pos obj) + x (vel obj) * dt /\
  y (pos (rk4_update obj dt)) = y (pos obj) + y (vel obj) * dt /\
  vel (rk4_update obj dt) = vel obj.
Proof.
  intros Hf _. rewrite pos_rk4_update, vel_rk4_update.
  rewrite (rk4_locals_free obj dt Hf), (nonzero_false _ Hf).
  cbn [px py x y vect_cset set_x set_y set_mod set_angle].
  repeat split; ring.
Qed.

Lemma rk4_update_no_force_witness :
  mod_ (force solid_coasting) = 0 /\
  0 <= 2 /\
  x (pos (rk4_update solid_coasting 2)) =
    x (pos solid_coasting) + x (vel solid_coasting) * 2 /\
  y (pos (rk4_update solid_coasting 2)) =
    y (pos solid_coasting) + y (vel solid_coasting) * 2 /\
  vel (rk4_update solid_coasting 2) = vel solid_coasting.
Proof.
  split; [reflexivity |]. split; [lra |].
  apply (rk4_update_no_force solid_coasting 2); [reflexivity | lra].
Defined.

(** ** One substep of the force branch *)

(** C9.  In one substep the position increment of each axis is
    [v*h*(6 + 9h + 5h^2 + h^3)/6], with [v] the velocity component at the
    start of the substep; the acceleration enters the velocity only, which
    advances by [acceleration*h], and changing the acceleration changes
    neither position increment. *)
Theorem rk4_body_increment (h ax ay : R) (s : Locals) :
  px (rk4_body h ax ay s) - px s =
    vx s * h * (6 + 9 * h + 5 * h ^ 2 + h ^ 3) / 6 /\
  py (rk4_body h ax ay s) - py s =
    vy s * h * (6 + 9 * h + 5 * h ^ 2 + h ^ 3) / 6 /\
  vx (rk4_body h ax ay s) = vx s + ax * h /\
  vy (rk4_body h ax ay s) = vy s + ay * h /\
  (forall ax' ay' : R,
      px (rk4_body h ax' ay' s) = px (rk4_body h ax ay s) /\
      py (rk4_body h ax' ay' s) = py (rk4_body h ax ay s)).
Proof.
  rewrite rk4_body_eq. cbn [px py vx vy]. unfold blend_factor.
  repeat split; try field.
  all: rewrite rk4_body_eq; reflexivity.
Qed.

(** ** The two blends compared *)

(** In exact arithmetic the two groupings, [2*ix + h*tx] against
    [2*(iy + h/2*ty)], denote the same function. *)
Lemma blend_axes_agree_exact (v h : R) : blend_x v h = blend_y v h.
Proof. rewrite blend_x_poly, blend_y_poly. reflexivity. Qed.

Lemma b64_neq (a b : PrimFloat.float) :
  PrimFloat.eqb a b = false -> PrimFloat.eqb b b = true -> a <> b.
Proof.
  intros Hab Hbb Heq. rewrite Heq in Hab. rewrite Hab in Hbb. discriminate.
Qed.

(** The two binary64 inputs, spelled out as mantissa and exponent:
    190 * 2^-1074 and 2^52 * 2^-59 = 2^-7. *)
Lemma b64_inputs :
  FloatOps.Prim2SF B64.slow = SpecFloat.S754_finite false 190 (-1074) /\
  FloatOps.Prim2SF B64.step =
    SpecFloat.S754_finite false 4503599627370496 (-59).
Proof. split; vm_compute; reflexivity. Qed.

(** C5.  Over binary64 the two blends are inconsistent with each other:
    applied to the same velocity 190 * 2^-1074 and the same step 2^-7, the
    x blend of lines 149-153 gives 2^-1074 and the y blend of lines 159-163
    gives 2^-1073, so there are a velocity and a step for which the two
    axes get different position increments. *)
Theorem blend_axes_differ :
  B64.blend_x B64.slow B64.step = B64.scaled 1 (-1074) /\
  B64.blend_y B64.slow B64.step = B64.scaled 1 (-1073) /\
  exists v h : PrimFloat.float, B64.blend_x v h <> B64.blend_y v h.
Proof.
  split; [vm_compute; reflexivity |].
  split; [vm_compute; reflexivity |].
  exists B64.slow, B64.step.
  apply b64_neq; vm_compute; reflexivity.
Qed.

(** ** Consistency of the vectors after the update *)

Lemma solid_skewed_vel_not_consistent : ~ consistent (vel solid_skewed).
Proof.
  intros [Hm _]. cbn [solid_skewed vel mod_ x y] in Hm.
  replace (1 * 1 + 0 * 0) with 1 in Hm by ring.
  rewrite sqrt_1 in Hm. lra.
Qed.

(** C7, the claim as worded, refuted: a solid without force whose velocity
    is stored with magnitude 5 over cartesian (1, 0) keeps that velocity
    through the update, which never passes it to [vect_cset]. *)
Lemma rk4_update_keeps_skewed_velocity :
  0 <= 1 /\ ~ consistent (vel (rk4_update solid_skewed 1)).
Proof.
  split; [lra |].
  rewrite vel_rk4_update.
  rewrite (nonzero_false (mod_ (force solid_skewed)) eq_refl).
  exact solid_skewed_vel_not_consistent.
Qed.

(** C7, amended.  The position is committed through [vect_cset] on both
    branches and is consistent after every update.  The velocity is
    committed through [vect_cset] in the force branch only; without force it
    is left as it was, so after the update it is consistent exactly when the
    force magnitude is not 0 or it was consistent before. *)
Theorem rk4_update_consistency (obj : Solid) (dt : R) :
  consistent (pos (rk4_update obj dt)) /\
  (consistent (vel (rk4_update obj dt)) <->
   mod_ (force obj) <> 0 \/ consistent (vel obj)).
Proof.
  split.
  - rewrite pos_rk4_update. apply vect_cset_consistent.
  - rewrite vel_rk4_update.
    destruct (Req_dec_T (mod_ (force obj)) 0) as [H0|Hn].
    + rewrite (nonzero_false _ H0). split; [auto | intros [Hc|Hc]; [contradiction | exact Hc]].
    + rewrite (nonzero_true _ Hn). split; [auto | intros _; apply vect_cset_consistent].
Qed.

(** ** The heading *)

Lemma M_PI_pos : 0 < M_PI.
Proof. unfold M_PI. exact PI_RGT_0. Qed.

Lemma M_PI_le_4 : M_PI <= 4.
Proof. unfold M_PI. exact PI_4. Qed.

(** The heading after lines 124-126, by the position of the sum. *)
Lemma rk4_heading_dir (obj : Solid) (dt : R) :
  let d1 := dir obj + dir_vel obj / 360 * dt in
  (d1 < 0 -> dir (rk4_heading obj dt) = d1 + 2 * M_PI) /\
  (2 * M_PI < d1 -> dir (rk4_heading obj dt) = d1 - 2 * M_PI) /\
  (0 <= d1 <= 2 * M_PI -> dir (rk4_heading obj dt) = d1).
Proof.
  intros d1. subst d1. pose proof M_PI_pos.
  repeat split; intros Hd; heading_cases; lra.
Qed.

(** C3, the claim as worded, refuted: from heading 0, an angular velocity of
    7200 over [dt = 1] adds 20 to the heading, and the single subtraction of
    2*pi leaves it above 2*pi. *)
Lemma rk4_update_heading_overshoots :
  0 <= dir (solid_turning 0 7200) < 2 * M_PI /\
  0 <= 1 /\
  ~ (0 <= dir (rk4_update (solid_turning 0 7200) 1) < 2 * M_PI).
Proof.
  pose proof M_PI_pos. pose proof M_PI_le_4.
  split; [cbn [solid_turning dir]; lra |]. split; [lra |].
  rewrite dir_rk4_update.
  destruct (rk4_heading_dir (solid_turning 0 7200) 1) as (_ & Hhi & _).
  cbn [solid_turning dir dir_vel] in Hhi.
  rewrite Hhi by lra. lra.
Qed.

(** C3, amended.  Starting from a heading in [0, 2*pi), let [d1] be
    [heading + (angular velocity / 360) * dt].  The update wraps once: a
    negative [d1] becomes [d1 + 2*pi], a [d1] above 2*pi becomes
    [d1 - 2*pi], any other [d1] is kept.  The heading after the update lies
    in [0, 2*pi) exactly when [-2*pi <= d1 < 4*pi] and [d1] is not 2*pi. *)
Theorem rk4_update_heading (obj : Solid) (dt : R) :
  0 <= dir obj < 2 * M_PI ->
  0 <= dt ->
  let d1 := dir obj + dir_vel obj / 360 * dt in
  (0 <= dir (rk4_update obj dt) < 2 * M_PI <->
   - (2 * M_PI) <= d1 < 4 * M_PI /\ d1 <> 2 * M_PI) /\
  (d1 < 0 -> dir (rk4_update obj dt) = d1 + 2 * M_PI) /\
  (2 * M_PI < d1 -> dir (rk4_update obj dt) = d1 - 2 * M_PI) /\
  (0 <= d1 <= 2 * M_PI -> dir (rk4_update obj dt) = d1).
Proof.
  intros _ _ d1. rewrite dir_rk4_update.
  destruct (rk4_heading_dir obj dt) as (Hlo & Hhi & Hmid).
  fold d1 in Hlo, Hhi, Hmid. pose proof M_PI_pos.
  split; [| repeat split; assumption].
  destruct (Rlt_dec d1 0) as [H1|H1].
  - rewrite (Hlo H1). split; [intros ? | intros [? ?]]; repeat split; lra.
  - destruct (Rlt_dec (2 * M_PI) d1) as [H2|H2].
    + rewrite (Hhi H2). split; [intros ? | intros [? ?]]; repeat split; lra.
    + rewrite Hmid by lra. split; [intros ? | intros [? ?]]; repeat split; lra.
Qed.

Lemma rk4_update_heading_witness :
  0 <= dir (solid_turning 0 (-360)) < 2 * M_PI /\
  0 <= 1 /\
  dir (rk4_update (solid_turning 0 (-360)) 1) = -1 + 2 * M_PI.
Proof.
  assert (Hd : 0 <= dir (solid_turning 0 (-360)) < 2 * M_PI)
    by (pose proof M_PI_pos; cbn [solid_turning dir]; lra).
  assert (Ht : 0 <= 1) by lra.
  split; [exact Hd |]. split; [exact Ht |].
  destruct (rk4_update_heading (solid_turning 0 (-360)) 1 Hd Ht)
    as (_ & Hlo & _).
  cbn [solid_turning dir dir_vel] in Hlo.
  rewrite Hlo by lra. lra.
Defined.

(** ** The substep count against the ceiling *)

Lemma Rceil_ge (d : R) : d <= IZR (Rceil d).
Proof.
  unfold Rceil. rewrite opp_IZR.
  destruct (Int_part_bounds (- d)) as [Hlo _]. lra.
Qed.

Lemma Rceil_at (d : R) (z : Z) : IZR z - 1 < d <= IZR z -> Rceil d = z.
Proof.
  intros [Hlo Hhi]. unfold Rceil.
  rewrite (Int_part_floor (- d) (- z)); [lia |].
  rewrite opp_IZR. lra.
Qed.

Lemma rk4_N_le_spec_N (dt : R) : (rk4_N dt <= spec_N dt)%Z.
Proof.
  unfold spec_N. destruct (Rlt_dec RK4_MIN_H dt) as [H|H].
  - destruct (rk4_N_bounds dt H) as [Hlo _].
    pose proof (Rceil_ge (dt / RK4_MIN_H)) as Hc.
    assert (Hle : IZR (rk4_N dt) <= IZR (Rceil (dt / RK4_MIN_H))) by lra.
    apply le_IZR in Hle. lia.
  - rewrite rk4_N_small by lra. lia.
Qed.

Lemma rk4_h_bounds (dt : R) :
  RK4_MIN_H <= dt -> RK4_MIN_H <= rk4_h dt < 2 * RK4_MIN_H.
Proof.
  intros H. pose proof (rk4_h_times_N dt) as Hh.
  pose proof (rk4_N_IZR_pos dt) as Hn.
  destruct (Rlt_dec RK4_MIN_H dt) as [Hlt|Hge].
  - destruct (rk4_N_bounds dt Hlt) as [Hlo Hhi].
    rewrite div_RK4_MIN_H in Hlo, Hhi. unfold RK4_MIN_H in *.
    set (n := IZR (rk4_N dt)) in *. set (h := rk4_h dt) in *.
    split.
    + apply Rmult_le_reg_r with n; [lra |]. rewrite Hh. lra.
    + apply Rmult_lt_reg_r with n; [lra |]. rewrite Hh. lra.
  - assert (Hd : dt = RK4_MIN_H) by lra.
    rewrite rk4_N_small in Hh by lra. unfold RK4_MIN_H in *. lra.
Qed.

Lemma rk4_locals_counter (obj : Solid) (dt : R) :
  i (rk4_locals obj dt) =
  if nonzero (mod_ (force obj)) then rk4_N dt else 0%Z.
Proof.
  unfold rk4_locals. destruct (nonzero (mod_ (force obj))).
  - rewrite rk4_loop_counter. cbn [rk4_entry i].
    pose proof (rk4_N_ge_1 dt). lia.
  - reflexivity.
Qed.

(** C4, the claim as worded, refuted: for [dt = 0.015] the code takes one
    substep of size 0.015, where [max(1, ceil(dt / 0.01))] is 2. *)
Lemma rk4_N_below_ceiling :
  0 <= 3 / 200 /\
  rk4_N (3 / 200) = 1%Z /\
  spec_N (3 / 200) = 2%Z /\
  rk4_N (3 / 200) <> spec_N (3 / 200) /\
  rk4_h (3 / 200) = 3 / 200.
Proof.
  assert (HN : rk4_N (3 / 200) = 1%Z)
    by (apply rk4_N_at; [unfold RK4_MIN_H; lra | lra]).
  assert (HS : spec_N (3 / 200) = 2%Z).
  { unfold spec_N. rewrite (Rceil_at _ 2); [reflexivity |].
    rewrite div_RK4_MIN_H. lra. }
  split; [lra |]. split; [exact HN |]. split; [exact HS |].
  split; [rewrite HN, HS; discriminate |].
  unfold rk4_h. rewrite HN. field.
Qed.

Lemma DBL_EPSILON_pos : 0 < DBL_EPSILON.
Proof. unfold DBL_EPSILON. lra. Qed.

(** The count against the exact quotient, with the slack that covers the
    rounding of the quotient the code truncates. *)
Lemma rk4_N_slack (dt : R) :
  RK4_MIN_H < dt ->
  dt / RK4_MIN_H - 1 < IZR (rk4_N dt) <= (1 + DBL_EPSILON) * (dt / RK4_MIN_H).
Proof.
  intros H. destruct (rk4_N_bounds dt H) as [Hlo Hhi].
  pose proof DBL_EPSILON_pos as He.
  assert (Hq : 0 <= dt / RK4_MIN_H)
    by (rewrite div_RK4_MIN_H; unfold RK4_MIN_H in H; lra).
  split; [lra |]. nra.
Qed.

Lemma rk4_N_le_INT_MAX (dt : R) :
  dt / RK4_MIN_H <= IZR INT_MAX -> (rk4_N dt <= INT_MAX)%Z.
Proof.
  intros Hr. destruct (Rlt_dec RK4_MIN_H dt) as [H|H].
  - destruct (rk4_N_bounds dt H) as [Hlo _]. apply le_IZR. lra.
  - rewrite rk4_N_small by lra. unfold INT_MAX. lia.
Qed.

(** C4, amended.  For [dt >= 0] with [dt / 0.01 <= INT_MAX], the range in
    which the cast of line 128 is defined: the count is [N = 1] when
    [dt <= 0.01]; when [dt > 0.01] it is the truncated quotient, which lies
    above [dt / 0.01 - 1] and, the rounding of the quotient allowed for, at
    most at [(1 + DBL_EPSILON) * dt / 0.01].  So [1 <= N], [N] is at most
    [max(1, ceil(dt / 0.01))] and fits an [int]; the step is [h = dt / N],
    the [N] substeps of the force branch cover [dt], and from [dt = 0.01]
    on the step lies between [(1 - DBL_EPSILON) * 0.01] and 0.02: 0.01
    bounds the step from below, not from above. *)
Theorem rk4_substeps (dt : R) :
  0 <= dt ->
  dt / RK4_MIN_H <= IZR INT_MAX ->
  (dt <= RK4_MIN_H -> rk4_N dt = 1%Z) /\
  (RK4_MIN_H < dt ->
   dt / RK4_MIN_H - 1 < IZR (rk4_N dt)
     <= (1 + DBL_EPSILON) * (dt / RK4_MIN_H)) /\
  (1 <= rk4_N dt <= spec_N dt)%Z /\
  (rk4_N dt <= INT_MAX)%Z /\
  rk4_h dt * IZR (rk4_N dt) = dt /\
  (RK4_MIN_H <= dt ->
   (1 - DBL_EPSILON) * RK4_MIN_H <= rk4_h dt < 2 * RK4_MIN_H) /\
  (forall obj : Solid,
      mod_ (force obj) <> 0 -> i (rk4_locals obj dt) = rk4_N dt).
Proof.
  intros _ Hr.
  split; [apply rk4_N_small |].
  split; [apply rk4_N_slack |].
  split; [split; [apply rk4_N_ge_1 | apply rk4_N_le_spec_N] |].
  split; [apply rk4_N_le_INT_MAX; exact Hr |].
  split; [apply rk4_h_times_N |].
  split.
  - intros H. destruct (rk4_h_bounds dt H) as [Hlo Hhi].
    pose proof DBL_EPSILON_pos as He. unfold RK4_MIN_H in *.
    split; [nra | exact Hhi].
  - intros obj Hf.
    rewrite rk4_locals_counter, (nonzero_true _ Hf). reflexivity.
Qed.

Lemma rk4_substeps_witness :
  0 <= 1 /\
  1 / RK4_MIN_H <= IZR INT_MAX /\
  rk4_N 1 = 100%Z /\
  rk4_h 1 = 1 / 100.
Proof.
  assert (Ht : 0 <= 1) by lra.
  assert (Hr : 1 / RK4_MIN_H <= IZR INT_MAX)
    by (rewrite div_RK4_MIN_H; unfold INT_MAX; lra).
  destruct (rk4_substeps 1 Ht Hr) as (_ & _ & _ & _ & Hh & _).
  assert (HN : rk4_N 1 = 100%Z).
  { apply rk4_N_at; [unfold RK4_MIN_H; lra | lra]. }
  split; [exact Ht |]. split; [exact Hr |]. split; [exact HN |].
  rewrite HN in Hh. lra.
Defined.

(** ** Termination and the number of iterations *)

(** C8, the claim as worded, refuted: with a force and [dt = 0.005] the loop
    runs once, more than [dt / 0.01 = 0.5]; without a force the loop is not
    entered, so it does not run at least once. *)
Lemma rk4_iterations_outside_claimed_bounds :
  0 <= 1 / 200 /\
  i (rk4_locals (solid_at_rest 2 4) (1 / 200)) = 1%Z /\
  ~ (IZR (i (rk4_locals (solid_at_rest 2 4) (1 / 200)))
       <= (1 / 200) / RK4_MIN_H) /\
  i (rk4_locals solid_coasting (1 / 200)) = 0%Z.
Proof.
  assert (Hf : mod_ (force (solid_at_rest 2 4)) <> 0)
    by (cbn [solid_at_rest force vect_along_x mod_]; lra).
  assert (Hi : i (rk4_locals (solid_at_rest 2 4) (1 / 200)) = 1%Z).
  { rewrite rk4_locals_counter, (nonzero_true _ Hf).
    apply rk4_N_small. unfold RK4_MIN_H. lra. }
  split; [lra |]. split; [exact Hi |]. split.
  - rewrite Hi, div_RK4_MIN_H. lra.
  - rewrite rk4_locals_counter.
    rewrite (nonzero_false (mod_ (force solid_coasting)) eq_refl). reflexivity.
Qed.

(** C8, amended.  For every Solid and every [dt >= 0] with
    [dt / 0.01 <= INT_MAX], the range in which the cast of line 128 is
    defined, the update runs to completion: the loop, driven by its guard
    [i < N], stops for every bound [N].  With force magnitude 0 the loop is
    not entered and runs no iteration.  With a force magnitude other than
    0 it runs at least one iteration and a number that fits an [int]: one
    when [dt <= 0.01], and when [dt > 0.01] the truncated quotient, which
    lies above [dt / 0.01 - 1] and, the rounding of the quotient allowed
    for, at most at [(1 + DBL_EPSILON) * dt / 0.01]. *)
Theorem rk4_update_iterations (obj : Solid) (dt : R) :
  0 <= dt ->
  dt / RK4_MIN_H <= IZR INT_MAX ->
  (forall (N : Z) (h ax ay : R),
      rk4_for (Z.to_nat N) N h ax ay (rk4_entry obj) =
      Some (rk4_loop (Z.to_nat N) h ax ay (rk4_entry obj))) /\
  (mod_ (force obj) = 0 -> i (rk4_locals obj dt) = 0%Z) /\
  (mod_ (force obj) <> 0 ->
   (1 <= i (rk4_locals obj dt) <= INT_MAX)%Z /\
   (dt <= RK4_MIN_H -> i (rk4_locals obj dt) = 1%Z) /\
   (RK4_MIN_H < dt ->
    dt / RK4_MIN_H - 1 < IZR (i (rk4_locals obj dt))
      <= (1 + DBL_EPSILON) * (dt / RK4_MIN_H))).
Proof.
  intros _ Hr.
  split.
  { intros N h ax ay.
    rewrite rk4_for_terminates by (cbn [rk4_entry i]; lia).
    cbn [rk4_entry i]. rewrite Z.sub_0_r. reflexivity. }
  split.
  { intros H0. rewrite rk4_locals_counter, (nonzero_false _ H0).
    reflexivity. }
  intros Hf. rewrite rk4_locals_counter, (nonzero_true _ Hf).
  split; [split; [apply rk4_N_ge_1 | apply rk4_N_le_INT_MAX; exact Hr] |].
  split; [apply rk4_N_small | apply rk4_N_slack].
Qed.

Lemma rk4_update_iterations_witness :
  0 <= 1 /\
  1 / RK4_MIN_H <= IZR INT_MAX /\
  mod_ (force (solid_at_rest 2 4)) <> 0 /\
  (1 <= i (rk4_locals (solid_at_rest 2 4) 1) <= INT_MAX)%Z.
Proof.
  assert (Ht : 0 <= 1) by lra.
  assert (Hr : 1 / RK4_MIN_H <= IZR INT_MAX)
    by (rewrite div_RK4_MIN_H; unfold INT_MAX; lra).
  assert (Hf : mod_ (force (solid_at_rest 2 4)) <> 0)
    by (cbn [solid_at_rest force vect_along_x mod_]; lra).
  split; [exact Ht |]. split; [exact Hr |]. split; [exact Hf |].
  destruct (rk4_update_iterations (solid_at_rest 2 4) 1 Ht Hr)
    as (_ & _ & Hi).
  exact (proj1 (Hi Hf)).
Defined.

(** ** Constant force: the code against the closed form *)

Lemma vect_zero_consistent : consistent vect_zero.
Proof.
  split; cbn [vect_zero mod_ angle x y].
  - replace (0 * 0 + 0 * 0) with 0 by ring. symmetry. exact sqrt_0.
  - unfold atan2.
    repeat match goal with
           | |- context [Rlt_dec ?a ?b] => destruct (Rlt_dec a b); try lra
           end.
Qed.

Lemma solid_at_rest_force (m f : R) :
  f <> 0 -> mod_ (force (solid_at_rest m f)) <> 0.
Proof. intros H. exact H. Qed.

(** A solid at rest stays where it is through an update of at most 0.01,
    whatever the force: the single substep adds the blend of a zero
    velocity. *)
Lemma rk4_at_rest_short_step (m f dt : R) :
  f <> 0 -> dt <= RK4_MIN_H ->
  x (pos (rk4_update (solid_at_rest m f) dt)) = 0 /\
  y (pos (rk4_update (solid_at_rest m f) dt)) = 0.
Proof.
  intros Hf Hdt. rewrite pos_rk4_update.
  rewrite (rk4_locals_force_closed _ dt (solid_at_rest_force m f Hf)).
  rewrite (rk4_N_small dt Hdt).
  cbn [vect_cset set_x set_y set_mod set_angle x y px py
       solid_at_rest pos vel force vect_zero vect_along_x].
  split; unfold Rdiv; ring.
Qed.

(** No tolerance bounds the distance between the position the code reaches
    and the closed form: a solid at rest, of mass 1, under a large enough
    force, misses it by more than [tol] already over [dt = 0.01]. *)
Lemma rk4_constant_force_error_unbounded (tol : R) :
  exists (obj : Solid) (dt : R),
    0 < mass obj /\
    consistent (vel obj) /\
    consistent (pos obj) /\
    mod_ (force obj) <> 0 /\
    0 <= dt /\
    tol < Rabs (x (pos (rk4_update obj dt)) -
                closed_form (x (pos obj)) (x (vel obj)) (x (force obj))
                            (mass obj) dt).
Proof.
  set (f := 20000 * (Rabs tol + 1)).
  assert (Hpos : 0 < f) by (unfold f; pose proof (Rabs_pos tol); lra).
  assert (Hf : f <> 0) by lra.
  exists (solid_at_rest 1 f), (1 / 100).
  destruct (rk4_at_rest_short_step 1 f (1 / 100) Hf) as [Hx _];
    [unfold RK4_MIN_H; lra |].
  rewrite Hx.
  cbn [solid_at_rest mass vel pos force vect_zero vect_along_x x mod_].
  repeat split; try lra; try apply vect_zero_consistent.
  unfold closed_form.
  replace (0 - (0 + 0 * (1 / 100) + 1 / 2 * (f / 1) * (1 / 100 * (1 / 100))))
    with (- (Rabs tol + 1)) by (unfold f; field).
  rewrite Rabs_Ropp. pose proof (Rle_abs tol) as Ha.
  rewrite Rabs_pos_eq by (pose proof (Rabs_pos tol); lra). lra.
Qed.

(** C1.  The claim at the input mass 1, velocity and position (0, 0), force
    (20000, 0), [dt = 0.01]: the update moves the velocity to (200, 0) and
    leaves the position at (0, 0), where the closed form
    [p0 + v0*dt + 1/2*(F/m)*dt^2] is (1, 0). *)
Theorem rk4_constant_force_at_rest :
  0 < mass (solid_at_rest 1 20000) /\
  consistent (vel (solid_at_rest 1 20000)) /\
  consistent (pos (solid_at_rest 1 20000)) /\
  mod_ (force (solid_at_rest 1 20000)) <> 0 /\
  0 <= 1 / 100 /\
  x (vel (rk4_update (solid_at_rest 1 20000) (1 / 100))) = 200 /\
  x (pos (rk4_update (solid_at_rest 1 20000) (1 / 100))) = 0 /\
  y (pos (rk4_update (solid_at_rest 1 20000) (1 / 100))) = 0 /\
  closed_form 0 0 20000 1 (1 / 100) = 1 /\
  closed_form 0 0 0 1 (1 / 100) = 0.
Proof.
  assert (Hf : (20000 : R) <> 0) by lra.
  assert (Hdt : 1 / 100 <= RK4_MIN_H) by (unfold RK4_MIN_H; lra).
  destruct (rk4_at_rest_short_step 1 20000 (1 / 100) Hf Hdt) as [Hx Hy].
  assert (Hv : x (vel (rk4_update (solid_at_rest 1 20000) (1 / 100))) = 200).
  { rewrite vel_rk4_update.
    rewrite (nonzero_true _ (solid_at_rest_force 1 20000 Hf)).
    rewrite (rk4_locals_force_closed _ _ (solid_at_rest_force 1 20000 Hf)).
    unfold rk4_h. rewrite (rk4_N_small _ Hdt).
    cbn [vect_cset set_x set_y set_mod set_angle x vx
         solid_at_rest mass vel force vect_zero vect_along_x].
    field. }
  cbn [solid_at_rest mass vel pos force vect_along_x mod_].
  repeat split; try lra; try apply vect_zero_consistent;
    try assumption; unfold closed_form; field.
Qed.

(** C6.  The example of the spec: mass 2, velocity and position (0, 0),
    force (4, 0), [dt = 1].  The acceleration is (2, 0), the update takes
    100 substeps of 0.01, the velocity ends at (2, 0) and the position at
    (1.004932665, 0); the closed form gives (1, 0). *)
Theorem rk4_update_example :
  x (force (solid_at_rest 2 4)) / mass (solid_at_rest 2 4) = 2 /\
  y (force (solid_at_rest 2 4)) / mass (solid_at_rest 2 4) = 0 /\
  rk4_N 1 = 100%Z /\
  x (vel (rk4_update (solid_at_rest 2 4) 1)) = 2 /\
  y (vel (rk4_update (solid_at_rest 2 4) 1)) = 0 /\
  x (pos (rk4_update (solid_at_rest 2 4) 1)) = 1004932665 / 1000000000 /\
  y (pos (rk4_update (solid_at_rest 2 4) 1)) = 0 /\
  closed_form 0 0 4 2 1 = 1.
Proof.
  assert (HN : rk4_N 1 = 100%Z)
    by (apply rk4_N_at; [unfold RK4_MIN_H; lra | lra]).
  assert (Hf : mod_ (force (solid_at_rest 2 4)) <> 0)
    by (apply solid_at_rest_force; lra).
  rewrite pos_rk4_update, vel_rk4_update, (nonzero_true _ Hf).
  rewrite (rk4_locals_force_closed _ 1 Hf).
  unfold rk4_h. rewrite HN.
  cbn [vect_cset set_x set_y set_mod set_angle x y px py vx vy
       solid_at_rest mass pos vel force vect_zero vect_along_x].
  unfold blend_factor, closed_form.
  repeat split; try reflexivity; field.
Qed.

(** ** Initialization *)

Lemma solid_init_eq (dest : Solid) (m : R) (v p : option Vector2d) :
  solid_init dest m v p =
  mkSolid m 0 (dir_vel dest) (source_or_zero v) (source_or_zero p)
          (mkVector2d (x (force dest)) (y (force dest)) 0
                      (angle (force dest)))
          fn_rk4_update.
Proof.
  unfold solid_init. cbv zeta.
  destruct v as [sv|], p as [sp|];
    rewrite ?vectcpy_eq, ?vectnull_eq; reflexivity.
Qed.

(** C10, the claim as worded, refuted: the angular velocity is a member of
    the Solid other than the force, and [solid_init] does not write it; two
    storages that differ there give two solids that differ there. *)
Lemma solid_init_leaves_dir_vel :
  dir_vel (solid_init storage_junk 1 None None) = 7 /\
  dir_vel (solid_init storage_zero 1 None None) = 0 /\
  ~ initialized dir_vel.
Proof.
  split; [reflexivity |]. split; [reflexivity |].
  intros H. specialize (H storage_junk storage_zero 1 None None).
  rewrite !solid_init_eq in H. cbn [dir_vel storage_junk storage_zero] in H.
  lra.
Qed.

(** C10, amended.  [solid_init], and with it [solid_create], writes of the
    force only the magnitude, which becomes 0; the force's x, y and angle
    are left as found, so the force of the new solid need not be
    consistent.  Mass, heading, velocity, position and update are
    initialized: mass to the argument, heading to 0, velocity and position
    to the source vector or to zero, update to the RK4 integrator.  The
    angular velocity is left as found. *)
Theorem solid_init_frame (dest : Solid) (m : R) (v p : option Vector2d) :
  mod_ (force (solid_init dest m v p)) = 0 /\
  x (force (solid_init dest m v p)) = x (force dest) /\
  y (force (solid_init dest m v p)) = y (force dest) /\
  angle (force (solid_init dest m v p)) = angle (force dest) /\
  dir_vel (solid_init dest m v p) = dir_vel dest /\
  mass (solid_init dest m v p) = m /\
  dir (solid_init dest m v p) = 0 /\
  vel (solid_init dest m v p) = source_or_zero v /\
  pos (solid_init dest m v p) = source_or_zero p /\
  update (solid_init dest m v p) = fn_rk4_update /\
  solid_create (Some dest) m v p = Some (solid_init dest m v p) /\
  ~ consistent (force (solid_init storage_junk m v p)) /\
  (initialized mass /\ initialized dir /\ initialized vel /\
   initialized pos /\ initialized update) /\
  (unwritten (fun s => x (force s)) /\ unwritten (fun s => y (force s)) /\
   unwritten (fun s => angle (force s)) /\ unwritten dir_vel).
Proof.
  rewrite solid_init_eq.
  cbn [mass dir dir_vel vel pos force update x y mod_ angle].
  repeat apply conj; try reflexivity.
  - unfold solid_create. rewrite solid_init_eq. reflexivity.
  - rewrite solid_init_eq. intros [Hm _].
    cbn [force storage_junk mod_ x y] in Hm.
    replace (1 * 1 + 0 * 0) with 1 in Hm by ring.
    rewrite sqrt_1 in Hm. lra.
  - intros d1 d2 m' v' p'. rewrite !solid_init_eq. reflexivity.
  - intros d1 d2 m' v' p'. rewrite !solid_init_eq. reflexivity.
  - intros d1 d2 m' v' p'. rewrite !solid_init_eq. reflexivity.
  - intros d1 d2 m' v' p'. rewrite !solid_init_eq. reflexivity.
  - intros d1 d2 m' v' p'. rewrite !solid_init_eq. reflexivity.
  - intros d m' v' p'. rewrite solid_init_eq. reflexivity.
  - intros d m' v' p'. rewrite solid_init_eq. reflexivity.
  - intros d m' v' p'. rewrite solid_init_eq. reflexivity.
  - intros d m' v' p'. rewrite solid_init_eq. reflexivity.
Qed.

(** * Further properties of the integrator *)

(** ** The force branch in terms of [dt] *)

(** The substeps' velocity increments add up to [acceleration * dt]. *)
Lemma vel_rk4_update_force (obj : Solid) (dt : R) :
  mod_ (force obj) <> 0 ->
  x (vel (rk4_update obj dt)) = x (vel obj) + x (force obj) / mass obj * dt /\
  y (vel (rk4_update obj dt)) = y (vel obj) + y (force obj) / mass obj * dt.
Proof.
  intros Hf. rewrite vel_rk4_update, (nonzero_true _ Hf).
  rewrite (rk4_locals_force_closed obj dt Hf).
  cbn [vect_cset set_x set_y set_mod set_angle x y vx vy].
  pose proof (rk4_h_times_N dt) as Hh.
  split.
  - replace (IZR (rk4_N dt) * (x (force obj) / mass obj * rk4_h dt))
      with (x (force obj) / mass obj * (rk4_h dt * IZR (rk4_N dt))) by ring.
    rewrite Hh. reflexivity.
  - replace (IZR (rk4_N dt) * (y (force obj) / mass obj * rk4_h dt))
      with (y (force obj) / mass obj * (rk4_h dt * IZR (rk4_N dt))) by ring.
    rewrite Hh. reflexivity.
Qed.

(** X1.  With a force magnitude other than 0, a mass other than 0 and
    [dt / 0.01 <= INT_MAX], the velocity after the update is
    [v0 + (F/m)*dt] on each axis, whatever the number of substeps. *)
Theorem rk4_update_velocity (obj : Solid) (dt : R) :
  mod_ (force obj) <> 0 ->
  mass obj <> 0 ->
  dt / RK4_MIN_H <= IZR INT_MAX ->
  x (vel (rk4_update obj dt)) = x (vel obj) + x (force obj) / mass obj * dt /\
  y (vel (rk4_update obj dt)) = y (vel obj) + y (force obj) / mass obj * dt.
Proof. intros Hf _ _. exact (vel_rk4_update_force obj dt Hf). Qed.

Lemma rk4_update_velocity_witness :
  mod_ (force (solid_at_rest 2 4)) <> 0 /\
  mass (solid_at_rest 2 4) <> 0 /\
  3 / RK4_MIN_H <= IZR INT_MAX /\
  x (vel (rk4_update (solid_at_rest 2 4) 3)) = 0 + 4 / 2 * 3.
Proof.
  assert (Hf : mod_ (force (solid_at_rest 2 4)) <> 0)
    by (cbn [solid_at_rest force vect_along_x mod_]; lra).
  assert (Hm : mass (solid_at_rest 2 4) <> 0)
    by (cbn [solid_at_rest mass]; lra).
  assert (Hr : 3 / RK4_MIN_H <= IZR INT_MAX)
    by (rewrite div_RK4_MIN_H; unfold INT_MAX; lra).
  split; [exact Hf |]. split; [exact Hm |]. split; [exact Hr |].
  exact (proj1 (rk4_update_velocity (solid_at_rest 2 4) 3 Hf Hm Hr)).
Defined.

(** X2.  The substep loop of the force branch, run [n] times with step [h]
    and acceleration [(ax, ay)], whatever count and step lines 128-129
    gave: on each axis the position ends at
    [p + c(h) * (v*T + a*T*(T - h)/2)], where [T = n*h] is the time the
    substeps cover, [p] and [v] are the position and velocity the loop
    started from and [c(h) = (6 + 9h + 5h^2 + h^3)/6]. *)
Theorem rk4_loop_position (n : nat) (h ax ay : R) (s : Locals) :
  px (rk4_loop n h ax ay s) =
    px s +
    blend_factor h *
      (vx s * (INR n * h) + ax * (INR n * h) * (INR n * h - h) / 2) /\
  py (rk4_loop n h ax ay s) =
    py s +
    blend_factor h *
      (vy s * (INR n * h) + ay * (INR n * h) * (INR n * h - h) / 2).
Proof.
  rewrite rk4_loop_closed. cbn [px py].
  split; unfold Rdiv; ring.
Qed.

(** ** Zero elapsed time *)

Lemma solid_ext (s1 s2 : Solid) :
  mass s1 = mass s2 -> dir s1 = dir s2 -> dir_vel s1 = dir_vel s2 ->
  vel s1 = vel s2 -> pos s1 = pos s2 -> force s1 = force s2 ->
  update s1 = update s2 -> s1 = s2.
Proof.
  destruct s1, s2. cbn [mass dir dir_vel vel pos force update].
  intros; subst; reflexivity.
Qed.

(** A consistent vector is what [vect_cset] makes of its own cartesian
    members. *)
Lemma consistent_cset (w v : Vector2d) :
  consistent v -> vect_cset w (x v) (y v) = v.
Proof.
  intros [Hm Ha]. destruct v as [a b m g]. cbn [x y mod_ angle] in *.
  rewrite vect_cset_eq. unfold MOD, ANGLE. rewrite <- Hm, <- Ha. reflexivity.
Qed.

(** X3.  An update over [dt = 0] changes nothing, on either branch, in a
    solid of mass other than 0 whose velocity and position are consistent
    and whose heading lies in [0, 2*pi]. *)
Theorem rk4_update_zero_dt (obj : Solid) :
  mass obj <> 0 ->
  0 <= dir obj <= 2 * M_PI ->
  consistent (vel obj) ->
  consistent (pos obj) ->
  rk4_update obj 0 = obj.
Proof.
  intros _ Hd Hv Hp.
  destruct (rk4_update_frame obj 0) as (Hm & Hw & Hf & Hu).
  apply solid_ext; try assumption.
  - rewrite dir_rk4_update.
    destruct (rk4_heading_dir obj 0) as (_ & _ & Hmid).
    rewrite Hmid by lra. lra.
  - rewrite vel_rk4_update.
    destruct (Req_dec_T (mod_ (force obj)) 0) as [H0|Hn].
    + rewrite (nonzero_false _ H0). reflexivity.
    + rewrite (nonzero_true _ Hn), (rk4_locals_force_closed obj 0 Hn).
      cbn [vx vy].
      transitivity (vect_cset (vel obj) (x (vel obj)) (y (vel obj)));
        [| apply consistent_cset; exact Hv].
      f_equal; unfold rk4_h, Rdiv; ring.
  - rewrite pos_rk4_update.
    destruct (Req_dec_T (mod_ (force obj)) 0) as [H0|Hn].
    + rewrite (rk4_locals_free obj 0 H0). cbn [px py].
      transitivity (vect_cset (pos obj) (x (pos obj)) (y (pos obj)));
        [| apply consistent_cset; exact Hp].
      f_equal; ring.
    + rewrite (rk4_locals_force_closed obj 0 Hn). cbn [px py].
      transitivity (vect_cset (pos obj) (x (pos obj)) (y (pos obj)));
        [| apply consistent_cset; exact Hp].
      f_equal; unfold rk4_h, Rdiv; ring.
Qed.

Lemma rk4_update_zero_dt_witness :
  mass (solid_at_rest 2 4) <> 0 /\
  0 <= dir (solid_at_rest 2 4) <= 2 * M_PI /\
  consistent (vel (solid_at_rest 2 4)) /\
  consistent (pos (solid_at_rest 2 4)) /\
  rk4_update (solid_at_rest 2 4) 0 = solid_at_rest 2 4.
Proof.
  assert (Hm : mass (solid_at_rest 2 4) <> 0)
    by (cbn [solid_at_rest mass]; lra).
  assert (Hd : 0 <= dir (solid_at_rest 2 4) <= 2 * M_PI)
    by (pose proof M_PI_pos; cbn [solid_at_rest dir]; lra).
  split; [exact Hm |].
  split; [exact Hd |].
  split; [exact vect_zero_consistent |].
  split; [exact vect_zero_consistent |].
  apply (rk4_update_zero_dt (solid_at_rest 2 4) Hm Hd);
    exact vect_zero_consistent.
Defined.

(** ** More on the heading *)

(** X4.  The update changes the heading by [(angular velocity / 360) * dt]
    up to one turn: the new heading is the sum plus [k] times 2*pi, with
    [k] one of -1, 0, 1. *)
Theorem rk4_update_heading_one_turn (obj : Solid) (dt : R) :
  exists k : Z,
    (-1 <= k <= 1)%Z /\
    dir (rk4_update obj dt) =
      dir obj + dir_vel obj / 360 * dt + IZR k * (2 * M_PI).
Proof.
  rewrite dir_rk4_update.
  destruct (rk4_heading_dir obj dt) as (Hlo & Hhi & Hmid).
  set (d1 := dir obj + dir_vel obj / 360 * dt) in *.
  destruct (Rlt_dec d1 0) as [H1|H1].
  - exists 1%Z. split; [lia |]. rewrite (Hlo H1). lra.
  - destruct (Rlt_dec (2 * M_PI) d1) as [H2|H2].
    + exists (-1)%Z. split; [lia |]. rewrite (Hhi H2). lra.
    + exists 0%Z. split; [lia |]. rewrite Hmid by lra. lra.
Qed.

(** X5.  A heading in the closed interval [0, 2*pi] stays in it through an
    update that turns by at most one full turn either way. *)
Theorem rk4_update_heading_closed (obj : Solid) (dt : R) :
  0 <= dir obj <= 2 * M_PI ->
  - (2 * M_PI) <= dir_vel obj / 360 * dt <= 2 * M_PI ->
  0 <= dir (rk4_update obj dt) <= 2 * M_PI.
Proof.
  intros Hd Ht. rewrite dir_rk4_update.
  destruct (rk4_heading_dir obj dt) as (Hlo & Hhi & Hmid).
  set (d1 := dir obj + dir_vel obj / 360 * dt) in *.
  assert (Hd1 : d1 = dir obj + dir_vel obj / 360 * dt) by reflexivity.
  destruct (Rlt_dec d1 0) as [H1|H1].
  - rewrite (Hlo H1). lra.
  - destruct (Rlt_dec (2 * M_PI) d1) as [H2|H2].
    + rewrite (Hhi H2). lra.
    + rewrite Hmid by lra. lra.
Qed.

Lemma rk4_update_heading_closed_witness :
  0 <= dir (solid_turning 0 (-360)) <= 2 * M_PI /\
  - (2 * M_PI) <= dir_vel (solid_turning 0 (-360)) / 360 * 1 <= 2 * M_PI /\
  0 <= dir (rk4_update (solid_turning 0 (-360)) 1) <= 2 * M_PI.
Proof.
  pose proof M_PI_pos as Hpi. pose proof PI2_3_2 as H32.
  assert (Hd : 0 <= dir (solid_turning 0 (-360)) <= 2 * M_PI)
    by (cbn [solid_turning dir]; lra).
  assert (Ht : - (2 * M_PI)
               <= dir_vel (solid_turning 0 (-360)) / 360 * 1 <= 2 * M_PI)
    by (cbn [solid_turning dir_vel]; unfold M_PI in *; lra).
  split; [exact Hd |]. split; [exact Ht |].
  exact (rk4_update_heading_closed (solid_turning 0 (-360)) 1 Hd Ht).
Defined.

(** ** Sequences of updates *)

Lemma run_updates_cons (obj : Solid) (dt : R) (dts : list R) :
  run_updates obj (dt :: dts) = run_updates (rk4_update obj dt) dts.
Proof. reflexivity. Qed.

(** X6.  Over any sequence of updates the mass, the angular velocity, the
    force and the update function of a solid are never changed. *)
Theorem run_updates_frame (obj : Solid) (dts : list R) :
  mass (run_updates obj dts) = mass obj /\
  dir_vel (run_updates obj dts) = dir_vel obj /\
  force (run_updates obj dts) = force obj /\
  update (run_updates obj dts) = update obj.
Proof.
  revert obj. induction dts as [|dt dts IH]; intros obj.
  - repeat split.
  - rewrite run_updates_cons.
    destruct (IH (rk4_update obj dt)) as (Hm & Hw & Hf & Hu).
    destruct (rk4_update_frame obj dt) as (Hm' & Hw' & Hf' & Hu').
    rewrite Hm, Hw, Hf, Hu. auto.
Qed.

(** X7.  Without force, a sequence of updates moves the position by the
    velocity times the total elapsed time and leaves the velocity as it was:
    splitting an interval into several updates changes nothing. *)
Theorem run_updates_no_force (obj : Solid) (dts : list R) :
  mod_ (force obj) = 0 ->
  x (pos (run_updates obj dts)) = x (pos obj) + x (vel obj) * total_time dts /\
  y (pos (run_updates obj dts)) = y (pos obj) + y (vel obj) * total_time dts /\
  vel (run_updates obj dts) = vel obj.
Proof.
  revert obj. induction dts as [|dt dts IH]; intros obj Hf.
  - cbn [run_updates fold_left total_time fold_right]. repeat split; ring.
  - rewrite run_updates_cons.
    assert (Hf' : mod_ (force (rk4_update obj dt)) = 0).
    { destruct (rk4_update_frame obj dt) as (_ & _ & Hfr & _).
      rewrite Hfr. exact Hf. }
    destruct (IH (rk4_update obj dt) Hf') as (Hx & Hy & Hv).
    rewrite Hx, Hy, Hv.
    rewrite pos_rk4_update, vel_rk4_update.
    rewrite (rk4_locals_free obj dt Hf), (nonzero_false _ Hf).
    cbn [vect_cset set_x set_y set_mod set_angle x y px py
         total_time fold_right].
    fold (total_time dts). repeat split; ring.
Qed.

Lemma run_updates_no_force_witness :
  mod_ (force solid_coasting) = 0 /\
  x (pos (run_updates solid_coasting (1 :: 2 :: nil))) =
    x (pos solid_coasting) +
    x (vel solid_coasting) * total_time (1 :: 2 :: nil).
Proof.
  split; [reflexivity |].
  exact (proj1 (run_updates_no_force solid_coasting (1 :: 2 :: nil) eq_refl)).
Defined.

(** X8.  With a force magnitude other than 0 and a mass other than 0, a
    sequence of updates, each over a [dt] with [dt / 0.01 <= INT_MAX],
    brings the velocity to [v0 + (F/m) * total elapsed time] on each
    axis. *)
Theorem run_updates_velocity (obj : Solid) (dts : list R) :
  mod_ (force obj) <> 0 ->
  mass obj <> 0 ->
  Forall (fun dt => dt / RK4_MIN_H <= IZR INT_MAX) dts ->
  x (vel (run_updates obj dts)) =
    x (vel obj) + x (force obj) / mass obj * total_time dts /\
  y (vel (run_updates obj dts)) =
    y (vel obj) + y (force obj) / mass obj * total_time dts.
Proof.
  intros Hf _ _. revert obj Hf.
  induction dts as [|dt dts IH]; intros obj Hf.
  - cbn [run_updates fold_left total_time fold_right]. split; ring.
  - rewrite run_updates_cons.
    destruct (rk4_update_frame obj dt) as (Hm & _ & Hfr & _).
    assert (Hf' : mod_ (force (rk4_update obj dt)) <> 0)
      by (rewrite Hfr; exact Hf).
    destruct (IH (rk4_update obj dt) Hf') as (Hx & Hy).
    destruct (vel_rk4_update_force obj dt Hf) as (Hvx & Hvy).
    rewrite Hx, Hy, Hvx, Hvy, Hfr, Hm.
    cbn [total_time fold_right]. fold (total_time dts).
    split; unfold Rdiv; ring.
Qed.

Lemma run_updates_velocity_witness :
  mod_ (force (solid_at_rest 2 4)) <> 0 /\
  mass (solid_at_rest 2 4) <> 0 /\
  Forall (fun dt => dt / RK4_MIN_H <= IZR INT_MAX) (1 :: 2 :: nil) /\
  x (vel (run_updates (solid_at_rest 2 4) (1 :: 2 :: nil))) =
    0 + 4 / 2 * total_time (1 :: 2 :: nil).
Proof.
  assert (Hf : mod_ (force (solid_at_rest 2 4)) <> 0)
    by (cbn [solid_at_rest force vect_along_x mod_]; lra).
  assert (Hm : mass (solid_at_rest 2 4) <> 0)
    by (cbn [solid_at_rest mass]; lra).
  assert (Hr : Forall (fun dt => dt / RK4_MIN_H <= IZR INT_MAX)
                      (1 :: 2 :: nil)).
  { repeat constructor; rewrite div_RK4_MIN_H; unfold INT_MAX; lra. }
  split; [exact Hf |]. split; [exact Hm |]. split; [exact Hr |].
  exact (proj1 (run_updates_velocity (solid_at_rest 2 4) (1 :: 2 :: nil)
                  Hf Hm Hr)).
Defined.

Lemma run_updates_keep_consistent (dts : list R) (obj : Solid) :
  consistent (vel obj) ->
  consistent (pos obj) ->
  consistent (vel (run_updates obj dts)) /\
  consistent (pos (run_updates obj dts)).
Proof.
  revert obj. induction dts as [|dt dts IH]; intros obj Hv Hp.
  - split; assumption.
  - rewrite run_updates_cons. apply IH.
    + rewrite vel_rk4_update.
      destruct (nonzero (mod_ (force obj)));
        [apply vect_cset_consistent | exact Hv].
    + rewrite pos_rk4_update. apply vect_cset_consistent.
Qed.

(** X9.  Consistency is an invariant of the tick loop: a solid whose
    velocity and position are consistent keeps both consistent through any
    sequence of updates. *)
Theorem run_updates_consistent (obj : Solid) (dts : list R) :
  consistent (vel obj) ->
  consistent (pos obj) ->
  consistent (vel (run_updates obj dts)) /\
  consistent (pos (run_updates obj dts)).
Proof. exact (run_updates_keep_consistent dts obj). Qed.

Lemma run_updates_consistent_witness :
  consistent (vel (solid_at_rest 2 4)) /\
  consistent (pos (solid_at_rest 2 4)) /\
  consistent (vel (run_updates (solid_at_rest 2 4) (1 :: 2 :: nil))) /\
  consistent (pos (run_updates (solid_at_rest 2 4) (1 :: 2 :: nil))).
Proof.
  split; [exact vect_zero_consistent |].
  split; [exact vect_zero_consistent |].
  exact (run_updates_consistent (solid_at_rest 2 4) (1 :: 2 :: nil)
           vect_zero_consistent vect_zero_consistent).
Defined.

(** ** Symmetries *)

(** X10.  Moving a solid by [(a, b)] before the update moves the position
    after the update by [(a, b)] and changes nothing in the velocity it
    ends with. *)
Theorem rk4_update_translate (obj : Solid) (a b dt : R) :
  x (pos (rk4_update (translate obj a b) dt)) =
    x (pos (rk4_update obj dt)) + a /\
  y (pos (rk4_update (translate obj a b) dt)) =
    y (pos (rk4_update obj dt)) + b /\
  vel (rk4_update (translate obj a b) dt) = vel (rk4_update obj dt).
Proof.
  rewrite !pos_rk4_update, !vel_rk4_update.
  unfold translate. cbn [force vel pos set_pos].
  destruct (Req_dec_T (mod_ (force obj)) 0) as [H0|Hn].
  - rewrite (nonzero_false _ H0).
    rewrite (rk4_locals_free obj dt H0).
    rewrite rk4_locals_free by exact H0.
    cbn [vect_cset set_x set_y set_mod set_angle x y px py vel pos set_pos].
    repeat split; ring.
  - rewrite (nonzero_true _ Hn).
    rewrite (rk4_locals_force_closed obj dt Hn).
    rewrite rk4_locals_force_closed by exact Hn.
    cbn [vect_cset set_x set_y set_mod set_angle x y px py vx vy
         vel pos force mass set_pos].
    repeat split; ring.
Qed.

(** X11.  The update treats the two axes alike: exchanging the x and y
    members of velocity, position and force before the update exchanges the
    x and y members of the velocity and position after it. *)
Theorem rk4_update_mirror (obj : Solid) (dt : R) :
  x (pos (rk4_update (solid_mirror obj) dt)) = y (pos (rk4_update obj dt)) /\
  y (pos (rk4_update (solid_mirror obj) dt)) = x (pos (rk4_update obj dt)) /\
  x (vel (rk4_update (solid_mirror obj) dt)) = y (vel (rk4_update obj dt)) /\
  y (vel (rk4_update (solid_mirror obj) dt)) = x (vel (rk4_update obj dt)).
Proof.
  rewrite !pos_rk4_update, !vel_rk4_update.
  cbn [solid_mirror force vect_mirror mod_].
  destruct (Req_dec_T (mod_ (force obj)) 0) as [H0|Hn].
  - rewrite (nonzero_false _ H0).
    rewrite (rk4_locals_free obj dt H0).
    rewrite rk4_locals_free by exact H0.
    cbn [vect_cset set_x set_y set_mod set_angle x y px py
         solid_mirror vel pos vect_mirror].
    repeat split; ring.
  - rewrite (nonzero_true _ Hn).
    rewrite (rk4_locals_force_closed obj dt Hn).
    rewrite rk4_locals_force_closed by exact Hn.
    cbn [vect_cset set_x set_y set_mod set_angle x y px py vx vy
         solid_mirror vel pos force mass vect_mirror].
    repeat split; ring.
Qed.

(** ** Initialization followed by an update *)

(** X12.  The first update of a solid just initialized takes the no-force
    branch whatever the storage held: the velocity stays the source vector
    (or zero) and the position moves by the velocity times [dt]; the
    unwritten force members never reach either. *)
Theorem solid_init_first_update
  (dest : Solid) (m : R) (v p : option Vector2d) (dt : R) :
  vel (rk4_update (solid_init dest m v p) dt) = source_or_zero v /\
  x (pos (rk4_update (solid_init dest m v p) dt)) =
    x (source_or_zero p) + x (source_or_zero v) * dt /\
  y (pos (rk4_update (solid_init dest m v p) dt)) =
    y (source_or_zero p) + y (source_or_zero v) * dt.
Proof.
  assert (H0 : mod_ (force (solid_init dest m v p)) = 0)
    by (rewrite solid_init_eq; reflexivity).
  rewrite pos_rk4_update, vel_rk4_update.
  rewrite (rk4_locals_free _ dt H0), (nonzero_false _ H0).
  rewrite solid_init_eq.
  cbn [vect_cset set_x set_y set_mod set_angle x y px py vel pos].
  repeat split; ring.
Qed.

(** X13.  The heading after that first update is read off the storage:
    [solid_init] sets the heading to 0 and leaves the angular velocity as
    found, so the heading becomes [(found angular velocity / 360) * dt]
    whenever that lies in [0, 2*pi]. *)
Theorem solid_init_first_heading
  (dest : Solid) (m : R) (v p : option Vector2d) (dt : R) :
  0 <= dir_vel dest / 360 * dt <= 2 * M_PI ->
  dir (rk4_update (solid_init dest m v p) dt) = dir_vel dest / 360 * dt.
Proof.
  intros H. rewrite dir_rk4_update.
  destruct (rk4_heading_dir (solid_init dest m v p) dt) as (_ & _ & Hmid).
  rewrite solid_init_eq in *. cbn [dir dir_vel] in *.
  rewrite Hmid by lra. ring.
Qed.

Lemma solid_init_first_heading_witness :
  0 <= dir_vel storage_junk / 360 * 1 <= 2 * M_PI /\
  dir (rk4_update (solid_init storage_junk 1 None None) 1) =
    dir_vel storage_junk / 360 * 1.
Proof.
  assert (H : 0 <= dir_vel storage_junk / 360 * 1 <= 2 * M_PI).
  { pose proof PI2_3_2. cbn [storage_junk dir_vel]. unfold M_PI. lra. }
  split; [exact H |].
  exact (solid_init_first_heading storage_junk 1 None None 1 H).
Defined.

(** * The two vector setters against each other *)

(** ** Trigonometry of [atan2] *)

Lemma sqrt_sum_squares (a b : R) :
  a <> 0 ->
  sqrt (a * a + b * b) = Rabs a * sqrt (1 + (b / a)²).
Proof.
  intros Ha.
  replace (a * a + b * b) with (Rsqr a * (1 + (b / a)²))
    by (unfold Rsqr; field; exact Ha).
  rewrite sqrt_mult.
  - rewrite sqrt_Rsqr_abs. reflexivity.
  - apply Rle_0_sqr.
  - pose proof (Rle_0_sqr (b / a)). lra.
Qed.

Lemma sqrt_one_plus_sqr_pos (t : R) : 0 < sqrt (1 + t²).
Proof. apply sqrt_lt_R0. pose proof (Rle_0_sqr t). lra. Qed.

(** The polar members that [atan2] and the square root derive from
    [(a, b)] give [(a, b)] back. *)
Lemma polar_of_cartesian (a b : R) :
  sqrt (a * a + b * b) * cos (atan2 b a) = a /\
  sqrt (a * a + b * b) * sin (atan2 b a) = b.
Proof.
  unfold atan2.
  destruct (Rlt_dec 0 a) as [Hpos|Hnpos].
  - assert (Ha : a <> 0) by lra.
    rewrite (sqrt_sum_squares a b Ha), cos_atan, sin_atan.
    rewrite Rabs_pos_eq by lra.
    pose proof (sqrt_one_plus_sqr_pos (b / a)) as Hs.
    split; field; repeat split; lra.
  - destruct (Rlt_dec a 0) as [Hneg|Hnneg].
    + assert (Ha : a <> 0) by lra.
      rewrite (sqrt_sum_squares a b Ha).
      rewrite Rabs_left by lra.
      pose proof (sqrt_one_plus_sqr_pos (b / a)) as Hs.
      destruct (Rle_dec 0 b).
      * rewrite neg_cos, neg_sin, cos_atan, sin_atan.
        split; field; repeat split; lra.
      * rewrite cos_minus, sin_minus, cos_PI, sin_PI, cos_atan, sin_atan.
        split; field; repeat split; lra.
    + assert (Ha : a = 0) by lra. subst a.
      replace (0 * 0 + b * b) with (Rsqr b) by (unfold Rsqr; ring).
      rewrite sqrt_Rsqr_abs.
      destruct (Rlt_dec 0 b) as [Hb|Hb].
      * rewrite cos_PI2, sin_PI2, Rabs_pos_eq by lra. split; ring.
      * destruct (Rlt_dec b 0) as [Hb'|Hb'].
        -- rewrite cos_neg, sin_neg, cos_PI2, sin_PI2, Rabs_left by lra.
           split; ring.
        -- assert (Hz : b = 0) by lra. subst b.
           rewrite Rabs_R0. split; ring.
Qed.

(** [atan2] gives back the angle of a polar form with positive modulus and
    angle in (-pi, pi]. *)
Lemma atan2_of_polar (m a : R) :
  0 < m -> - PI < a <= PI -> atan2 (m * sin a) (m * cos a) = a.
Proof.
  intros Hm [Hlo Hhi]. pose proof PI_RGT_0 as Hpi.
  destruct (Rlt_dec a (- (PI / 2))) as [H1|H1].
  - assert (Hc : cos a < 0) by (rewrite <- cos_neg; apply cos_lt_0; lra).
    assert (Hs : sin a < 0) by (apply sin_lt_0_var; lra).
    assert (Hx : m * cos a < 0) by nra.
    assert (Hy : m * sin a < 0) by nra.
    unfold atan2.
    destruct (Rlt_dec 0 (m * cos a)); [lra |].
    destruct (Rlt_dec (m * cos a) 0); [| lra].
    destruct (Rle_dec 0 (m * sin a)); [lra |].
    replace (m * sin a / (m * cos a)) with (tan (a + PI))
      by (unfold tan; rewrite neg_sin, neg_cos; field; split; lra).
    rewrite atan_tan by lra. ring.
  - destruct (Rlt_dec a (PI / 2)) as [H2|H2].
    + destruct (Req_dec_T a (- (PI / 2))) as [He|Hne].
      * subst a. rewrite cos_neg, sin_neg, cos_PI2, sin_PI2.
        unfold atan2. replace (m * 0) with 0 by ring.
        destruct (Rlt_dec 0 0); [lra |].
        destruct (Rlt_dec 0 (m * - (1))); [lra |].
        destruct (Rlt_dec (m * - (1)) 0); [reflexivity | lra].
      * assert (Hc : 0 < cos a) by (apply cos_gt_0; lra).
        assert (Hx : 0 < m * cos a) by nra.
        unfold atan2. destruct (Rlt_dec 0 (m * cos a)); [| lra].
        replace (m * sin a / (m * cos a)) with (tan a)
          by (unfold tan; field; split; lra).
        apply atan_tan. lra.
    + destruct (Req_dec_T a (PI / 2)) as [He|Hne].
      * subst a. rewrite cos_PI2, sin_PI2.
        unfold atan2. replace (m * 0) with 0 by ring.
        destruct (Rlt_dec 0 0); [lra |].
        destruct (Rlt_dec 0 (m * 1)); [reflexivity | lra].
      * assert (Hc : cos a < 0) by (apply cos_lt_0; lra).
        assert (Hs : 0 <= sin a) by (apply sin_ge_0; lra).
        assert (Hx : m * cos a < 0) by nra.
        assert (Hy : 0 <= m * sin a) by nra.
        unfold atan2.
        destruct (Rlt_dec 0 (m * cos a)); [lra |].
        destruct (Rlt_dec (m * cos a) 0); [| lra].
        destruct (Rle_dec 0 (m * sin a)); [| lra].
        replace (m * sin a / (m * cos a)) with (tan (a - PI))
          by (unfold tan; rewrite sin_minus, cos_minus, cos_PI, sin_PI;
              field; split; lra).
        rewrite atan_tan by lra. ring.
Qed.

(** ** [vect_pset] *)

Lemma vect_pset_eq (v : Vector2d) (m a : R) :
  vect_pset v m a = mkVector2d (m * cos a) (m * sin a) m a.
Proof. reflexivity. Qed.

(** X14.  [vect_pset] stores the modulus and the angle as given, and
    cartesian members whose squares add up to the square of the modulus,
    whatever the angle and the sign of the modulus. *)
Theorem vect_pset_length (v : Vector2d) (m a : R) :
  mod_ (vect_pset v m a) = m /\
  angle (vect_pset v m a) = a /\
  x (vect_pset v m a) * x (vect_pset v m a) +
  y (vect_pset v m a) * y (vect_pset v m a) = m * m.
Proof.
  rewrite vect_pset_eq. cbn [x y mod_ angle].
  split; [reflexivity |]. split; [reflexivity |].
  pose proof (sin2_cos2 a) as H. unfold Rsqr in H.
  replace (m * cos a * (m * cos a) + m * sin a * (m * sin a))
    with (m * m * (sin a * sin a + cos a * cos a)) by ring.
  rewrite H. ring.
Qed.

(** X15.  The magnitude that [vect_pset] stores is the length of the
    cartesian members it stores exactly when the modulus is not negative:
    a negative modulus gives a vector that is not consistent. *)
Theorem vect_pset_magnitude (v : Vector2d) (m a : R) :
  mod_ (vect_pset v m a) =
    sqrt (x (vect_pset v m a) * x (vect_pset v m a) +
          y (vect_pset v m a) * y (vect_pset v m a)) <->
  0 <= m.
Proof.
  rewrite vect_pset_eq. cbn [x y mod_].
  pose proof (sin2_cos2 a) as H. unfold Rsqr in H.
  replace (m * cos a * (m * cos a) + m * sin a * (m * sin a))
    with (Rsqr m)
    by (unfold Rsqr;
        replace (m * cos a * (m * cos a) + m * sin a * (m * sin a))
          with (m * m * (sin a * sin a + cos a * cos a)) by ring;
        rewrite H; ring).
  rewrite sqrt_Rsqr_abs. split.
  - intros Hm. rewrite Hm. apply Rabs_pos.
  - intros Hm. symmetry. apply Rabs_pos_eq. exact Hm.
Qed.

(** X16.  With a positive modulus and an angle in (-pi, pi], [vect_pset]
    gives a consistent vector: passing its cartesian members to [vect_cset]
    gives the same vector back. *)
Theorem vect_pset_consistent (v w : Vector2d) (m a : R) :
  0 < m ->
  - M_PI < a <= M_PI ->
  consistent (vect_pset v m a) /\
  vect_cset w (x (vect_pset v m a)) (y (vect_pset v m a)) = vect_pset v m a.
Proof.
  intros Hm Ha.
  assert (Hc : consistent (vect_pset v m a)).
  { rewrite vect_pset_eq. split; cbn [x y mod_ angle].
    - pose proof (sin2_cos2 a) as H. unfold Rsqr in H.
      replace (m * cos a * (m * cos a) + m * sin a * (m * sin a))
        with (m * m * (sin a * sin a + cos a * cos a)) by ring.
      rewrite H, Rmult_1_r. symmetry. apply sqrt_square. lra.
    - symmetry. apply atan2_of_polar; [exact Hm | exact Ha]. }
  split; [exact Hc | apply consistent_cset; exact Hc].
Qed.

Lemma vect_pset_consistent_witness :
  0 < 2 /\
  - M_PI < 0 <= M_PI /\
  consistent (vect_pset vect_zero 2 0).
Proof.
  assert (Hm : 0 < 2) by lra.
  assert (Ha : - M_PI < 0 <= M_PI) by (pose proof M_PI_pos; lra).
  split; [exact Hm |]. split; [exact Ha |].
  exact (proj1 (vect_pset_consistent vect_zero vect_zero 2 0 Hm Ha)).
Defined.

(** X17.  Round trip of the two setters: [vect_pset] called with the
    magnitude and the angle that [vect_cset] stored gives back the vector
    of [vect_cset], for every [(a, b)]. *)
Theorem vect_pset_of_cset (v w : Vector2d) (a b : R) :
  vect_pset w (mod_ (vect_cset v a b)) (angle (vect_cset v a b)) =
  vect_cset v a b.
Proof.
  rewrite vect_cset_eq, vect_pset_eq. cbn [mod_ angle].
  unfold MOD, ANGLE.
  destruct (polar_of_cartesian a b) as [Hx Hy].
  rewrite Hx, Hy. reflexivity.
Qed.

(** ** Initialization followed by the tick loop *)

(** X18.  A solid initialized from sources that are NULL or consistent has
    a consistent velocity and position, and keeps them consistent through
    any sequence of updates. *)
Theorem solid_init_run_consistent
  (dest : Solid) (m : R) (v p : option Vector2d) (dts : list R) :
  consistent (source_or_zero v) ->
  consistent (source_or_zero p) ->
  consistent (vel (run_updates (solid_init dest m v p) dts)) /\
  consistent (pos (run_updates (solid_init dest m v p) dts)).
Proof.
  intros Hv Hp.
  apply run_updates_keep_consistent; rewrite solid_init_eq; assumption.
Qed.

Lemma solid_init_run_consistent_witness :
  consistent (source_or_zero None) /\
  consistent (vel (run_updates (solid_init storage_junk 1 None None)
                               (1 :: 2 :: nil))) /\
  consistent (pos (run_updates (solid_init storage_junk 1 None None)
                               (1 :: 2 :: nil))).
Proof.
  split; [exact vect_zero_consistent |].
  exact (solid_init_run_consistent storage_junk 1 None None (1 :: 2 :: nil)
           vect_zero_consistent vect_zero_consistent).
Defined.

(** * The substep loop on an axis without acceleration *)

Lemma blend_factor_gt_1 (h : R) : 0 < h -> 1 < blend_factor h.
Proof.
  intros H. unfold blend_factor.
  assert (H2 : 0 < h * h) by nra.
  assert (H3 : 0 < h * h * h) by nra.
  lra.
Qed.

(** X19.  The substep loop does not move an axis without acceleration
    as the no-force branch does: run at least once with a step [h > 0] and
    y acceleration 0, from a y velocity [v > 0], it moves the y position by
    [c(h) * v * T], where [T = n*h] is the time covered and
    [c(h) = (6 + 9h + 5h^2 + h^3)/6 > 1], which is more than the [v * T] of
    lines 171-172. *)
Theorem rk4_loop_cross_axis (n : nat) (h ax : R) (s : Locals) :
  (0 < n)%nat ->
  0 < h ->
  0 < vy s ->
  py (rk4_loop n h ax 0 s) = py s + blend_factor h * (vy s * (INR n * h)) /\
  py s + vy s * (INR n * h) < py (rk4_loop n h ax 0 s).
Proof.
  intros Hn Hh Hv.
  assert (Heq : py (rk4_loop n h ax 0 s) =
                py s + blend_factor h * (vy s * (INR n * h))).
  { rewrite rk4_loop_closed. cbn [py]. unfold Rdiv. ring. }
  split; [exact Heq |].
  rewrite Heq.
  pose proof (blend_factor_gt_1 h Hh) as Hc.
  assert (Hnr : 0 < INR n) by (apply lt_0_INR; exact Hn).
  assert (Hp : 0 < vy s * (INR n * h)).
  { apply Rmult_lt_0_compat; [exact Hv |].
    apply Rmult_lt_0_compat; assumption. }
  nra.
Qed.

Lemma rk4_loop_cross_axis_witness :
  (0 < 1)%nat /\
  0 < 1 /\
  0 < vy (rk4_entry solid_crossing) /\
  py (rk4_entry solid_crossing) + vy (rk4_entry solid_crossing) * (INR 1 * 1)
    < py (rk4_loop 1 1 1 0 (rk4_entry solid_crossing)).
Proof.
  assert (Hn : (0 < 1)%nat) by lia.
  assert (Hh : 0 < 1) by lra.
  assert (Hv : 0 < vy (rk4_entry solid_crossing))
    by (cbn [rk4_entry vy VY solid_crossing vel y]; unfold VY;
        cbn [y]; lra).
  split; [exact Hn |]. split; [exact Hh |]. split; [exact Hv |].
  exact (proj2 (rk4_loop_cross_axis 1 1 1 (rk4_entry solid_crossing)
                  Hn Hh Hv)).
Defined.
